(** * A shallow embedding of [examples/python/csv_processor.py]

    The development has four layers.

    - [Py]: the pieces of the Python runtime the processor calls
      ([str.strip], [int], [float], [str] of an integer, [repr]).
    - [Csv]: the [csv] module as the processor uses it (the default
      [excel] dialect, [DictReader] and [DictWriter]).
    - [Fs]: paths, files and opening them.
    - the class [CSVProcessor] itself, method by method, as functions in
      an exception-and-state monad over the processor object and the
      file system.

    The statements about the processor come after the definitions, each
    under the number of the claim it settles.

    Text is a [string]; every [ascii] stands for one code point below
    256.  Python integers are [Z]; Python floats are IEEE binary64
    values, represented by [spec_float]. *)

From Stdlib Require Import ZArith Lia Bool Ascii String.
From Stdlib Require Import DecimalString DecimalZ DecimalPos DecimalFacts.
From Stdlib Require Import SpecFloat Sorted.
From stdpp Require Import base option list gmap strings.

Local Open Scope Z_scope.

(* ===================================================================== *)
(** * Text *)
(* ===================================================================== *)

Module Py.

(** ** Characters *)

Definition code (c : ascii) : Z := Z.of_N (N_of_ascii c).

Definition DQUOTE : ascii := ascii_of_N 34.
Definition CR : ascii := ascii_of_N 13.
Definition LF : ascii := ascii_of_N 10.

(** [str.isspace] on a single code point below 256: the ASCII controls
    9..13 and 28..31, the space, NEL (133) and the no-break space (160). *)
Definition isspace (c : ascii) : bool :=
  let n := code c in
  ((9 <=? n) && (n <=? 13)) || ((28 <=? n) && (n <=? 32))
  || (n =? 133) || (n =? 160).

(** The white space [int] and [float] skip around a number: that of
    [isspace] without the controls 28..31. *)
Definition isspace_number (c : ascii) : bool :=
  let n := code c in
  ((9 <=? n) && (n <=? 13)) || (n =? 32) || (n =? 133) || (n =? 160).

(** The value of a decimal digit. *)
Definition digit_value (c : ascii) : option Z :=
  let n := code c in
  if (48 <=? n) && (n <=? 57) then Some (n - 48) else None.

Definition lower (c : ascii) : ascii :=
  let n := code c in
  if (65 <=? n) && (n <=? 90) then ascii_of_N (Z.to_N (n + 32)) else c.

(** ** Strings *)

(** Dropping the leading characters that are [space]. *)
Fixpoint lstrip_by (space : ascii → bool) (s : string) : string :=
  match s with
  | String c r => if space c then lstrip_by space r else s
  | EmptyString => EmptyString
  end.

(** Dropping the trailing characters that are [space]: a character is
    kept when it is not a space or when something that is kept follows. *)
Fixpoint rstrip_by (space : ascii → bool) (s : string) : string :=
  match s with
  | String c r =>
      match rstrip_by space r with
      | EmptyString => if space c then EmptyString else String c EmptyString
      | r' => String c r'
      end
  | EmptyString => EmptyString
  end.

(** [s.strip()] *)
Definition strip (s : string) : string := rstrip_by isspace (lstrip_by isspace s).

(** What [int] and [float] read of their argument. *)
Definition strip_number (s : string) : string :=
  rstrip_by isspace_number (lstrip_by isspace_number s).

(** Text that is white space only. *)
Fixpoint all_space (s : string) : bool :=
  match s with
  | String c r => isspace c && all_space r
  | EmptyString => true
  end.

(** Truth value of a string: non-empty. *)
Definition truthy (s : string) : bool :=
  match s with EmptyString => false | _ => true end.

Fixpoint lower_str (s : string) : string :=
  match s with
  | String c r => String (lower c) (lower_str r)
  | EmptyString => EmptyString
  end.

(** ** [str(n)] for an integer *)

Definition str_int (z : Z) : string := NilZero.string_of_int (Z.to_int z).

(** ** [int(s)], base 10

    Surrounding white space is dropped, one sign is allowed, and the
    digits may be grouped by single underscores.  [None] stands for the
    [ValueError] the call raises.  (The interpreter's bound on the number
    of digits of such a conversion is left out.) *)

Fixpoint int_digits (acc : Z) (after_digit : bool) (s : string) : option Z :=
  match s with
  | EmptyString => if after_digit then Some acc else None
  | String c r =>
      match digit_value c with
      | Some d => int_digits (10 * acc + d) true r
      | None =>
          if Ascii.eqb c "_" && after_digit then int_digits acc false r
          else None
      end
  end.

(** The number a run of decimal digits stands for, after [acc]. *)
Fixpoint digits_value (acc : Z) (d : Decimal.uint) : Z :=
  match d with
  | Decimal.Nil => acc
  | Decimal.D0 d => digits_value (10 * acc) d
  | Decimal.D1 d => digits_value (10 * acc + 1) d
  | Decimal.D2 d => digits_value (10 * acc + 2) d
  | Decimal.D3 d => digits_value (10 * acc + 3) d
  | Decimal.D4 d => digits_value (10 * acc + 4) d
  | Decimal.D5 d => digits_value (10 * acc + 5) d
  | Decimal.D6 d => digits_value (10 * acc + 6) d
  | Decimal.D7 d => digits_value (10 * acc + 7) d
  | Decimal.D8 d => digits_value (10 * acc + 8) d
  | Decimal.D9 d => digits_value (10 * acc + 9) d
  end.

Definition int (s : string) : option Z :=
  match strip_number s with
  | String c r =>
      if Ascii.eqb c "-" then Z.opp <$> int_digits 0 false r
      else if Ascii.eqb c "+" then int_digits 0 false r
      else int_digits 0 false (String c r)
  | EmptyString => None
  end.

(** ** Floats

    A Python float is an IEEE binary64 number. *)

Definition prec : Z := 53.
Definition emax : Z := 1024.

Definition float : Type := spec_float.

#[global] Instance float_eq_dec : EqDecision spec_float.
Proof. solve_decision. Defined.

Definition nan : float := S754_nan.
Definition inf (neg : bool) : float := S754_infinity neg.
Definition zero : float := S754_zero false.

(** [x < y] on floats; false as soon as one side is a NaN. *)
Definition float_lt (x y : float) : bool := SFltb x y.

(** The float nearest to [m * 10 ^ e] (ties to even), with the sign
    [neg]; [m] is not negative. *)
Definition of_decimal (neg : bool) (m e : Z) : float :=
  match m with
  | Zpos _ =>
      if 0 <=? e then binary_round prec emax neg (Z.to_pos (m * 10 ^ e)) 0
      else
        let '(q, e', l) := SFdiv_core_binary prec emax m 0 (10 ^ (- e)) 0 in
        binary_round_aux prec emax neg q e' l
  | _ => S754_zero neg
  end.

(** A run of digits, grouped by single underscores: the value read so
    far, the number of digits and what follows the run.  An underscore
    that is not between two digits is an error. *)
Fixpoint digitpart (acc n : Z) (s : string) : option (Z * Z * string) :=
  match s with
  | EmptyString => Some (acc, n, s)
  | String c r =>
      match digit_value c with
      | Some d => digitpart (10 * acc + d) (n + 1) r
      | None =>
          if Ascii.eqb c "_" then
            match r with
            | String c' _ =>
                if (0 <? n) && bool_decide (is_Some (digit_value c'))
                then digitpart acc n r else None
            | EmptyString => None
            end
          else Some (acc, n, s)
      end
  end.

(** [digits [. digits] [e [sign] digits]] with a digit before or after
    the point: the mantissa and the power of ten. *)
Definition number (s : string) : option (Z * Z) :=
  '(m, ni, r1) ← digitpart 0 0 s;
  '(m, nf, r2) ← match r1 with
                 | String "." r => digitpart m 0 r
                 | _ => Some (m, 0, r1)
                 end;
  if ni + nf =? 0 then None
  else
    match r2 with
    | EmptyString => Some (m, - nf)
    | String c r =>
        if Ascii.eqb (lower c) "e" then
          let '(neg, r') := match r with
                            | String "-" t => (true, t)
                            | String "+" t => (false, t)
                            | _ => (false, r)
                            end in
          '(x, nx, r3) ← digitpart 0 0 r';
          if (nx =? 0) || truthy r3 then None
          else Some (m, (if neg then - x else x) - nf)
        else None
    end.

(** [float(s)]; [None] stands for the [ValueError]. *)
Definition float_of_str (s : string) : option float :=
  let t := strip_number s in
  let '(neg, r) := match t with
                   | String c r =>
                       if Ascii.eqb c "-" then (true, r)
                       else if Ascii.eqb c "+" then (false, r)
                       else (false, t)
                   | EmptyString => (false, t)
                   end in
  let l := lower_str r in
  if bool_decide (l = "inf") || bool_decide (l = "infinity") then Some (inf neg)
  else if bool_decide (l = "nan") then Some nan
  else '(m, e) ← number r; Some (of_decimal neg m e).

(** ** [repr] of a float

    The shortest decimal that reads back as the same float, nearest to
    the true value among those of that length; at most 17 digits. *)

(** [num / den < 10 ^ k] *)
Definition below_pow10 (num den k : Z) : bool :=
  if 0 <=? k then num <? 10 ^ k * den else num * 10 ^ (- k) <? den.

(** The least [k >= k0] with [num / den < 10 ^ k]. *)
Fixpoint decimal_point (fuel : nat) (num den k : Z) : Z :=
  match fuel with
  | O => k
  | S fuel' =>
      if below_pow10 num den k then k
      else decimal_point fuel' num den (k + 1)
  end.

(** A starting point for that search which is never too high, from the
    binary logarithms ([log10 2] is just below [0.30103]). *)
Definition pow10_lower_bound (num den : Z) : Z :=
  (Z.log2 num - Z.log2 den - 1) * 30103 / 100000 - 1.

(** The [n]-digit candidates around [num / den], whose decimal point is
    at [k]: the one below, whether the value is that one exactly, and
    how the value compares with the middle of the two. *)
Definition candidates (num den k n : Z) : Z * bool * comparison :=
  let '(N, D) := if 0 <=? k - n then (num, den * 10 ^ (k - n))
                 else (num * 10 ^ (n - k), den) in
  (N / D, N mod D =? 0, (2 * (N mod D)) ?= D).

Fixpoint shortest (fuel : nat) (x : float) (num den k n : Z) : Z * Z :=
  let '(lo, exact, side) := candidates num den k n in
  let nearest := match side with
                 | Lt => lo
                 | Gt => lo + 1
                 | Eq => if Z.even lo then lo else lo + 1
                 end in
  let back c := bool_decide (of_decimal false c (k - n) = x) in
  match fuel with
  | O => (nearest, k - n)
  | S fuel' =>
      if exact then (lo, k - n)
      else if back lo && back (lo + 1) then (nearest, k - n)
      else if back lo then (lo, k - n)
      else if back (lo + 1) then (lo + 1, k - n)
      else shortest fuel' x num den k (n + 1)
  end.

Fixpoint zeros (n : nat) : string :=
  match n with O => EmptyString | S n' => String "0" (zeros n') end.

Fixpoint drop_trailing_zeros (s : string) : string :=
  match s with
  | String c r =>
      match drop_trailing_zeros r with
      | EmptyString => if Ascii.eqb c "0" then EmptyString else String c EmptyString
      | r' => String c r'
      end
  | EmptyString => EmptyString
  end.

(** The digits [ds] with the decimal point after the first [decpt] of
    them, as [repr] lays them out. *)
Definition layout (ds : string) (decpt : Z) : string :=
  let len := Z.of_nat (String.length ds) in
  if (decpt <=? -4) || (16 <? decpt) then
    let x := decpt - 1 in
    let xs := str_int (Z.abs x) in
    String.substring 0 1 ds
    +:+ (if 1 <? len then "." +:+ String.substring 1 (String.length ds - 1) ds else EmptyString)
    +:+ "e" +:+ (if x <? 0 then "-" else "+")
    +:+ (if Z.abs x <? 10 then "0" else EmptyString) +:+ xs
  else if decpt <=? 0 then "0." +:+ zeros (Z.to_nat (- decpt)) +:+ ds
  else if len <=? decpt then ds +:+ zeros (Z.to_nat (decpt - len)) +:+ ".0"
  else String.substring 0 (Z.to_nat decpt) ds +:+ "."
       +:+ String.substring (Z.to_nat decpt) (String.length ds - Z.to_nat decpt) ds.

Definition repr_float (x : float) : string :=
  match x with
  | S754_nan => "nan"
  | S754_infinity neg => if neg then "-inf" else "inf"
  | S754_zero neg => if neg then "-0.0" else "0.0"
  | S754_finite neg m e =>
      let '(num, den) := if 0 <=? e then (Zpos m * 2 ^ e, 1)
                         else (Zpos m, 2 ^ (- e)) in
      let k := decimal_point 640 num den (pow10_lower_bound num den) in
      let '(c, e10) := shortest 16 (S754_finite false m e) num den k 1 in
      let all := str_int c in
      let ds := drop_trailing_zeros all in
      (if neg then "-" else EmptyString)
      +:+ layout ds (e10 + Z.of_nat (String.length all))
  end.

(** ** [repr] of a string

    Single quotes, unless the text has a single quote and no double
    quote; backslash escapes for the quote, the backslash, tab, newline
    and return; [\xNN] for every other code point that is not printable. *)

Fixpoint contains (c : ascii) (s : string) : bool :=
  match s with
  | String d r => Ascii.eqb c d || contains c r
  | EmptyString => false
  end.

Definition printable (c : ascii) : bool :=
  let n := code c in
  ((32 <=? n) && (n <=? 126)) || ((161 <=? n) && negb (n =? 173)).

Definition hex_digit (n : Z) : ascii :=
  ascii_of_N (Z.to_N (if n <? 10 then 48 + n else 87 + n)).

Definition escape_char (quote c : ascii) : string :=
  if Ascii.eqb c quote || Ascii.eqb c "\" then String "\" (String c EmptyString)
  else if Ascii.eqb c "009" then "\t"
  else if Ascii.eqb c LF then "\n"
  else if Ascii.eqb c CR then "\r"
  else if printable c then String c EmptyString
  else String "\" (String "x" (String (hex_digit (code c / 16))
                                (String (hex_digit (code c mod 16)) EmptyString))).

Fixpoint escape (quote : ascii) (s : string) : string :=
  match s with
  | String c r => escape_char quote c +:+ escape quote r
  | EmptyString => EmptyString
  end.

Definition repr_str (s : string) : string :=
  let quote : ascii := if contains "'" s && negb (contains DQUOTE s) then DQUOTE else "'"%char in
  String quote (escape quote s) +:+ String quote EmptyString.

(** ** Exceptions

    Only classes below [Exception] are modelled; [str(e)] is the
    message. *)

Inductive exn_class :=
  | AttributeError | ValueError | TypeError | OSError | CsvError
  | OtherException (name : string).

Record exn := Exn { class : exn_class; str_exn : string }.

Definition invalid_int (s : string) : exn :=
  Exn ValueError ("invalid literal for int() with base 10: " +:+ repr_str s).

Definition invalid_float (s : string) : exn :=
  Exn ValueError ("could not convert string to float: " +:+ repr_str s).

Definition no_attribute (type attr : string) : exn :=
  Exn AttributeError
      ("'" +:+ type +:+ "' object has no attribute '" +:+ attr +:+ "'").

End Py.

(* ===================================================================== *)
(** * The [csv] module, [excel] dialect

    Delimiter comma, quote character the double quote, doubled inside
    quoted fields, minimal quoting, line terminator CR LF, not strict, no escape
    character.  Fields are taken to be within the reader's size limit. *)
(* ===================================================================== *)

Module Csv.
Import Py.

(** ** The reader *)

(** The parser states the dialect can reach. *)
Inductive ParserState :=
  | START_RECORD | START_FIELD | IN_FIELD | IN_QUOTED_FIELD
  | QUOTE_IN_QUOTED_FIELD | EAT_CRNL.

#[global] Instance ParserState_eq_dec : EqDecision ParserState.
Proof. solve_decision. Defined.

Record Reader := {
  state : ParserState;
  field : string;           (* the characters of the field being read *)
  fields : list string      (* the fields of the record being read *)
}.

Definition parse_reset : Reader :=
  {| state := START_RECORD; field := EmptyString; fields := [] |}.

Definition parse_save_field (r : Reader) : Reader :=
  {| state := state r; field := EmptyString; fields := fields r ++ [field r] |}.

Definition parse_add_char (c : ascii) (r : Reader) : Reader :=
  {| state := state r; field := field r +:+ String c EmptyString;
     fields := fields r |}.

Definition set_state (st : ParserState) (r : Reader) : Reader :=
  {| state := st; field := field r; fields := fields r |}.

Definition is_newline (c : ascii) : bool := Ascii.eqb c LF || Ascii.eqb c CR.

Definition newline_in_field : exn :=
  Exn CsvError "new-line character seen in unquoted field - do you need to open the file with newline=''?".

(** One step of the parser; [None] is the end-of-line mark that follows
    every line. *)
Definition parse_process_char (r : Reader) (c : option ascii) : Reader + exn :=
  let start_field r :=
    match c with
    | None => inl (set_state START_RECORD (parse_save_field r))
    | Some c =>
        if is_newline c then inl (set_state EAT_CRNL (parse_save_field r))
        else if Ascii.eqb c DQUOTE then inl (set_state IN_QUOTED_FIELD r)
        else if Ascii.eqb c "," then inl (set_state START_FIELD (parse_save_field r))
        else inl (set_state IN_FIELD (parse_add_char c r))
    end in
  match state r with
  | START_RECORD =>
      match c with
      | None => inl r
      | Some c' => if is_newline c' then inl (set_state EAT_CRNL r)
                   else start_field r
      end
  | START_FIELD => start_field r
  | IN_FIELD =>
      match c with
      | None => inl (set_state START_RECORD (parse_save_field r))
      | Some c =>
          if is_newline c then inl (set_state EAT_CRNL (parse_save_field r))
          else if Ascii.eqb c "," then inl (set_state START_FIELD (parse_save_field r))
          else inl (parse_add_char c r)
      end
  | IN_QUOTED_FIELD =>
      match c with
      | None => inl r
      | Some c =>
          if Ascii.eqb c DQUOTE then inl (set_state QUOTE_IN_QUOTED_FIELD r)
          else inl (parse_add_char c r)
      end
  | QUOTE_IN_QUOTED_FIELD =>
      match c with
      | None => inl (set_state START_RECORD (parse_save_field r))
      | Some c =>
          if Ascii.eqb c DQUOTE then inl (set_state IN_QUOTED_FIELD (parse_add_char c r))
          else if Ascii.eqb c "," then inl (set_state START_FIELD (parse_save_field r))
          else if is_newline c then inl (set_state EAT_CRNL (parse_save_field r))
          else inl (set_state IN_FIELD (parse_add_char c r))
      end
  | EAT_CRNL =>
      match c with
      | None => inl (set_state START_RECORD r)
      | Some c => if is_newline c then inl r else inr newline_in_field
      end
  end.

(** A file opened with [newline=''] hands out its lines with their
    terminators: a line ends after LF, after a CR that no LF follows, and
    where the text ends. *)
Definition ends_line (c : ascii) (rest : string) : bool :=
  match rest with
  | EmptyString => true
  | String d _ => Ascii.eqb c LF || (Ascii.eqb c CR && negb (Ascii.eqb d LF))
  end.

(** The records the reader yields, one after the other, and the error
    that ends the iteration if there is one.  The reader is fed line after
    line, each followed by the end-of-line mark, until the parser is back
    in [START_RECORD]; when the text ends inside a quoted field, what has
    been read is the last record. *)
Fixpoint records (r : Reader) (text : string) : list (list string) * option exn :=
  match text with
  | EmptyString =>
      if truthy (field r) || bool_decide (state r = IN_QUOTED_FIELD)
      then ([fields (parse_save_field r)], None)
      else ([], None)
  | String c rest =>
      match parse_process_char r (Some c) with
      | inr e => ([], Some e)
      | inl r1 =>
          if ends_line c rest then
            match parse_process_char r1 None with
            | inr e => ([], Some e)
            | inl r2 =>
                if bool_decide (state r2 = START_RECORD) then
                  let '(rs, e) := records parse_reset rest in
                  (fields r2 :: rs, e)
                else records r2 rest
            end
          else records r1 rest
      end
  end.

Definition reader (text : string) : list (list string) * option exn :=
  records parse_reset text.

(** ** The writer *)

Definition needs_quotes (s : string) : bool :=
  contains "," s || contains DQUOTE s || contains CR s || contains LF s.

Fixpoint double_quotes (s : string) : string :=
  match s with
  | String c r =>
      if Ascii.eqb c DQUOTE then String DQUOTE (String DQUOTE (double_quotes r))
      else String c (double_quotes r)
  | EmptyString => EmptyString
  end.

(** One field as it is written. *)
Definition join_append (s : string) : string :=
  if needs_quotes s
  then String DQUOTE (double_quotes s +:+ String DQUOTE EmptyString)
  else s.

Fixpoint join (cells : list string) : string :=
  match cells with
  | [] => EmptyString
  | [c] => join_append c
  | c :: r => join_append c +:+ String "," (join r)
  end.

Definition lineterminator : string := String CR (String LF EmptyString).

(** [writer.writerow]: a record that would be empty although it has a
    field is written as a quoted empty field. *)
Definition writerow (cells : list string) : string :=
  let rec := join cells in
  (if bool_decide (cells ≠ []) && negb (truthy rec)
   then String DQUOTE (String DQUOTE EmptyString) else rec)
  +:+ lineterminator.

(** ** [DictReader] *)

(** What a row dictionary holds: a cell, [None] for a missing cell, or
    (under the key [None]) the list of surplus cells. *)
Inductive value :=
  | VStr (s : string)
  | VNone
  | VList (l : list string).

(** [dict(zip(fieldnames, row))], then the surplus cells under [restkey]
    or [restval] for the fields the record is too short for. *)
Definition to_dict (fieldnames row : list string) : gmap (option string) value :=
  let d := foldl (λ d kv, <[Some kv.1 := VStr kv.2]> d) ∅ (zip fieldnames row) in
  let lf := length fieldnames in
  let lr := length row in
  if (lf <? lr)%nat then <[None := VList (drop lf row)]> d
  else if (lr <? lf)%nat then foldl (λ d k, <[Some k := VNone]> d) d (drop lr fieldnames)
  else d.

Record DictReader := {
  fieldnames : option (list string);
  rows : list (gmap (option string) value);
  (* an error of the underlying reader: met when the header is read if
     there is no header, after the last of [rows] otherwise *)
  failure : option exn
}.

(** The first record is the header; empty records after it are skipped. *)
Definition dict_reader (text : string) : DictReader :=
  let '(recs, err) := reader text in
  match recs with
  | [] => {| fieldnames := None; rows := []; failure := err |}
  | names :: rest =>
      {| fieldnames := Some names;
         rows := to_dict names <$> filter (λ r, r ≠ []) rest;
         failure := err |}
  end.

End Csv.

(* ===================================================================== *)
(** * Files *)
(* ===================================================================== *)

Module Fs.
Import Py.

(** What a path names: a regular file with its text and whether it may
    be read and written, a directory, or something else (a socket).
    The text of a file is what decoding its bytes as UTF-8 gives; files
    that do not decode are left out, and so are the directories a path
    runs through. *)
Inductive node :=
  | File (readable writable : bool) (text : string)
  | Dir
  | Special.

Definition os_error (errno : Z) (what path : string) : exn :=
  Exn OSError ("[Errno " +:+ str_int errno +:+ "] " +:+ what +:+ ": "
               +:+ repr_str path).

Definition path_exists (fs : gmap string node) (p : string) : bool :=
  bool_decide (is_Some (fs !! p)).

Definition is_file (fs : gmap string node) (p : string) : bool :=
  match fs !! p with Some (File _ _ _) => true | _ => false end.

(** [open(p, 'r')] followed by reading the text. *)
Definition open_read (fs : gmap string node) (p : string) : string + exn :=
  match fs !! p with
  | Some (File true _ text) => inl text
  | Some (File false _ _) => inr (os_error 13 "Permission denied" p)
  | Some Dir => inr (os_error 21 "Is a directory" p)
  | Some Special => inr (os_error 6 "No such device or address" p)
  | None => inr (os_error 2 "No such file or directory" p)
  end.

(** [open(p, 'w')]: the file is created or emptied. *)
Definition open_write (fs : gmap string node) (p : string) : gmap string node + exn :=
  match fs !! p with
  | None => inl (<[p := File true true EmptyString]> fs)
  | Some (File r true _) => inl (<[p := File r true EmptyString]> fs)
  | Some (File _ false _) => inr (os_error 13 "Permission denied" p)
  | Some Dir => inr (os_error 21 "Is a directory" p)
  | Some Special => inr (os_error 6 "No such device or address" p)
  end.

(** Writing to the file opened at [p]. *)
Definition write (fs : gmap string node) (p : string) (more : string) : gmap string node :=
  match fs !! p with
  | Some (File r w text) => <[p := File r w (text +:+ more)]> fs
  | _ => fs
  end.

Definition content (fs : gmap string node) (p : string) : option string :=
  match fs !! p with Some (File _ _ text) => Some text | _ => None end.

End Fs.

(* ===================================================================== *)
(** * [class CSVProcessor] *)
(* ===================================================================== *)

Import Py.

(** The object: [input_file] and [output_file] hold the text of the two
    [Path]s. *)
Record CSVProcessor := {
  input_file : string;
  output_file : string;
  processed_rows : Z;
  errors : list string
}.

(** [__init__] *)
Definition init (input output : string) : CSVProcessor :=
  {| input_file := input; output_file := output;
     processed_rows := 0; errors := [] |}.

(** The row [_process_row] returns. *)
Record ProcessedRow := {
  id : Z;
  name : string;
  value : float
}.

#[global] Instance ProcessedRow_eq_dec : EqDecision ProcessedRow.
Proof. solve_decision. Defined.

(** What a method runs in: the object and the file system. *)
Record World := {
  self : CSVProcessor;
  fs : gmap string Fs.node
}.

(** ** Computations that change the world and may raise *)

Definition M (A : Type) : Type := World → (A + exn) * World.

Definition ret {A} (a : A) : M A := λ w, (inl a, w).
Definition raise {A} (e : exn) : M A := λ w, (inr e, w).

Definition bind {A B} (m : M A) (k : A → M B) : M B :=
  λ w, match m w with
       | (inl a, w') => k a w'
       | (inr e, w') => (inr e, w')
       end.

#[global] Instance M_ret : MRet M := @ret.
#[global] Instance M_bind : MBind M := λ A B k m, bind m k.

(** [try: body except classes as e: handler e]; [catches] tells which
    exceptions the clause names. *)
Definition try_except {A} (body : M A) (catches : exn → bool) (handler : exn → M A) : M A :=
  λ w, match body w with
       | (inr e, w') => if catches e then handler e w' else (inr e, w')
       | done => done
       end.

Definition Exception (e : exn) : bool := true.

Definition ValueError_or_TypeError (e : exn) : bool :=
  match class e with ValueError | TypeError => true | _ => false end.

Definition lift {A} (r : A + exn) : M A :=
  match r with inl a => ret a | inr e => raise e end.

Definition get {A} (f : World → A) : M A := λ w, (inl (f w), w).

(** The world after [self.errors.append(msg)]. *)
Definition appended (msg : string) (w : World) : World :=
  {| self := {| input_file := input_file (self w);
                output_file := output_file (self w);
                processed_rows := processed_rows (self w);
                errors := errors (self w) ++ [msg] |};
     fs := fs w |}.

Definition errors_append (msg : string) : M unit := λ w, (inl (), appended msg w).

(** The world after [self.processed_rows += 1]. *)
Definition counted (w : World) : World :=
  {| self := {| input_file := input_file (self w);
                output_file := output_file (self w);
                processed_rows := processed_rows (self w) + 1;
                errors := errors (self w) |};
     fs := fs w |}.

Definition count_row : M unit := λ w, (inl (), counted w).

Definition set_fs (fs' : gmap string Fs.node) : M unit :=
  λ w, (inl (), {| self := self w; fs := fs' |}).

(** ** [validate_input] *)

Definition validate_input : M bool :=
  p ← get (λ w, input_file (self w));
  found ← get (λ w, Fs.path_exists (fs w) p);
  if negb found then
    errors_append ("Input file not found: " +:+ p);; mret false
  else
    regular ← get (λ w, Fs.is_file (fs w) p);
    if negb regular then
      errors_append ("Input path is not a file: " +:+ p);; mret false
    else mret true.

(** ** [_process_row] *)

Definition required_fields : list string := ["id"; "name"; "value"].

(** [v.strip()] *)
Definition strip_value (v : Csv.value) : M string :=
  match v with
  | Csv.VStr s => mret (strip s)
  | Csv.VNone => raise (no_attribute "NoneType" "strip")
  | Csv.VList _ => raise (no_attribute "list" "strip")
  end.

(** [row[key]] *)
Definition getitem (row : gmap (option string) Csv.value) (key : string) : M Csv.value :=
  match row !! Some key with
  | Some v => mret v
  | None => raise (Exn (OtherException "KeyError") (repr_str key))
  end.

(** [int(v)] *)
Definition int_value (v : Csv.value) : M Z :=
  match v with
  | Csv.VStr s => match int s with Some z => mret z | None => raise (invalid_int s) end
  | Csv.VNone =>
      raise (Exn TypeError "int() argument must be a string, a bytes-like object or a real number, not 'NoneType'")
  | Csv.VList _ =>
      raise (Exn TypeError "int() argument must be a string, a bytes-like object or a real number, not 'list'")
  end.

(** [float(v)] *)
Definition float_value (v : Csv.value) : M float :=
  match v with
  | Csv.VStr s =>
      match float_of_str s with Some x => mret x | None => raise (invalid_float s) end
  | Csv.VNone =>
      raise (Exn TypeError "float() argument must be a string or a real number, not 'NoneType'")
  | Csv.VList _ =>
      raise (Exn TypeError "float() argument must be a string or a real number, not 'list'")
  end.

Definition row_label (row_num : Z) : string := "Row " +:+ str_int row_num +:+ ": ".

(** The loop over [required_fields]: [false] when it has returned [None]
    from the method, [true] when it has run to its end. *)
Fixpoint check_required (row : gmap (option string) Csv.value) (row_num : Z)
    (todo : list string) : M bool :=
  match todo with
  | [] => mret true
  | field :: todo' =>
      blank ← match row !! Some field with
              | None => mret true
              | Some v => s ← strip_value v; mret (negb (truthy s))
              end;
      if (blank : bool) then
        errors_append (row_label row_num +:+ "Missing required field '" +:+ field +:+ "'");;
        mret false
      else check_required row row_num todo'
  end.

Definition _process_row (row : gmap (option string) Csv.value) (row_num : Z)
    : M (option ProcessedRow) :=
  present ← check_required row row_num required_fields;
  if negb present then mret None
  else
    try_except
      (v_id ← getitem row "id"; the_id ← int_value v_id;
       v_name ← getitem row "name"; the_name ← strip_value v_name;
       v_value ← getitem row "value"; the_value ← float_value v_value;
       let processed_row := {| id := the_id; name := the_name; value := the_value |} in
       if float_lt (value processed_row) zero then
         errors_append (row_label row_num +:+ "Negative value not allowed");;
         mret None
       else mret (Some processed_row))
      ValueError_or_TypeError
      (λ e, errors_append (row_label row_num +:+ "Data conversion error - " +:+ str_exn e);;
            mret None).

(** ** [_write_output] *)

Definition keys : list string := ["id"; "name"; "value"].

(** [rowdict.get(key, '')], as the writer turns it into text. *)
Definition cell (rowdict : ProcessedRow) (key : string) : string :=
  if bool_decide (key = "id") then str_int (id rowdict)
  else if bool_decide (key = "name") then name rowdict
  else if bool_decide (key = "value") then repr_float (value rowdict)
  else EmptyString.

(** [DictWriter._dict_to_list]: a key that is no field name is refused.
    (The order in which the message lists such keys is not fixed in
    Python; they are listed in the order of the dictionary here.) *)
Definition wrong_fields (fieldnames : list string) : list string :=
  filter (λ k, k ∉ fieldnames) keys.

Fixpoint comma_separated (l : list string) : string :=
  match l with
  | [] => EmptyString
  | [x] => x
  | x :: r => x +:+ ", " +:+ comma_separated r
  end.

Definition dict_to_list (fieldnames : list string) (rowdict : ProcessedRow)
    : list string + exn :=
  match wrong_fields fieldnames with
  | [] => inl (cell rowdict <$> fieldnames)
  | wrong =>
      inr (Exn ValueError ("dict contains fields not in fieldnames: "
                           +:+ comma_separated (repr_str <$> wrong)))
  end.

(** [writer.writerows(data)], writing to the file at [p]: the rows
    before one that is refused have been written. *)
Fixpoint writerows (p : string) (fieldnames : list string) (data : list ProcessedRow)
    : M unit :=
  match data with
  | [] => mret ()
  | rowdict :: data' =>
      cells ← lift (dict_to_list fieldnames rowdict);
      now ← get fs;
      set_fs (Fs.write now p (Csv.writerow cells));;
      writerows p fieldnames data'
  end.

Definition _write_output (data : list ProcessedRow) (fieldnames : list string) : M unit :=
  p ← get (λ w, output_file (self w));
  now ← get fs;
  opened ← lift (Fs.open_write now p);
  set_fs opened;;
  (* writeheader *)
  set_fs (Fs.write opened p (Csv.writerow fieldnames));;
  writerows p fieldnames data.

(** ** [process_csv] *)

Section Rows.

(** The loop is stated for any row transform, so that what is proved
    about its handler covers every exception a transform can raise. *)
Variable process_row : gmap (option string) Csv.value → Z → M (option ProcessedRow).

(** [for row_num, row in enumerate(reader, start=row_num)] *)
Fixpoint process_rows (rows : list (gmap (option string) Csv.value)) (row_num : Z)
    (processed_data : list ProcessedRow) : M (list ProcessedRow) :=
  match rows with
  | [] => mret processed_data
  | row :: rows' =>
      processed_data' ←
        try_except
          (processed_row ← process_row row row_num;
           match processed_row with
           | Some r => count_row;; mret (processed_data ++ [r])
           | None => mret processed_data
           end)
          Exception
          (λ e, errors_append (row_label row_num +:+ str_exn e);;
                mret processed_data);
      process_rows rows' (row_num + 1) processed_data'
  end.

Definition process_csv_with : M bool :=
  valid ← validate_input;
  if negb valid then mret false
  else
    try_except
      (p ← get (λ w, input_file (self w));
       now ← get fs;
       text ← lift (Fs.open_read now p);
       let reader := Csv.dict_reader text in
       fieldnames ← match Csv.fieldnames reader, Csv.failure reader with
                    | None, Some e => raise e
                    | names, _ => mret names
                    end;
       match fieldnames with
       | None | Some [] =>
           errors_append "CSV file has no headers";; mret false
       | Some fieldnames =>
           processed_data ← process_rows (Csv.rows reader) 2 [];
           match Csv.failure reader with
           | Some e => raise e
           | None =>
               match processed_data with
               | _ :: _ =>
                   _write_output processed_data fieldnames;; mret true
               | [] =>
                   errors_append "No valid rows to process";; mret false
               end
           end
       end)
      Exception
      (λ e, errors_append ("File processing error: " +:+ str_exn e);; mret false).

End Rows.

Definition process_csv : M bool := process_csv_with _process_row.

(** ** [get_summary] *)

Record Summary := {
  summary_input_file : string;
  summary_output_file : string;
  summary_processed_rows : Z;
  summary_errors : list string;
  success : bool
}.

Definition get_summary : M Summary :=
  o ← get self;
  mret {| summary_input_file := input_file o;
          summary_output_file := output_file o;
          summary_processed_rows := processed_rows o;
          summary_errors := errors o;
          success := bool_decide (length (errors o) = 0%nat) |}.

(** Running a method on a fresh object. *)
Definition fresh (input output : string) (files : gmap string Fs.node) : World :=
  {| self := init input output; fs := files |}.

(** ** The condition of the required-field loop

    [field not in row or not row[field].strip()] is true when the field
    is absent or holds blank text, false when it holds other text, and
    raises when it holds [None]. *)

Definition missing_or_blank (row : gmap (option string) Csv.value) (field : string) : bool :=
  match row !! Some field with
  | None => true
  | Some (Csv.VStr s) => negb (truthy (strip s))
  | Some _ => false
  end.

Definition present (row : gmap (option string) Csv.value) (field : string) : bool :=
  match row !! Some field with
  | Some (Csv.VStr s) => truthy (strip s)
  | _ => false
  end.

(** ** What a run leaves behind

    The methods touch the object only by appending to [errors] and by
    counting rows, and the files only by writing the output file.  The
    definitions below name these effects; the row transform and the loop
    are read off a run on an object without errors. *)

(** The world after [errs] have been appended and [k] rows counted. *)
Definition grow (errs : list string) (k : Z) (w : World) : World :=
  {| self := {| input_file := input_file (self w);
                output_file := output_file (self w);
                processed_rows := processed_rows (self w) + k;
                errors := errors (self w) ++ errs |};
     fs := fs w |}.

(** The world with other files. *)
Definition with_fs (files : gmap string Fs.node) (w : World) : World :=
  {| self := self w; fs := files |}.

(** What [_process_row] returns or raises for a row, and what it appends. *)
Definition row_result (row : gmap (option string) Csv.value) (row_num : Z)
    : (option ProcessedRow + exn) * list string :=
  let '(res, w') := _process_row row row_num (fresh EmptyString EmptyString ∅) in
  (res, errors (self w')).

(** The rows the loop accepts and the diagnostics it leaves, in order. *)
Fixpoint loop_result (rows : list (gmap (option string) Csv.value)) (row_num : Z)
    : list ProcessedRow * list string :=
  match rows with
  | [] => ([], [])
  | row :: rows' =>
      let '(data, errs) := loop_result rows' (row_num + 1) in
      match row_result row row_num with
      | (inl (Some r), e) => (r :: data, e ++ errs)
      | (inl None, e) => (data, e ++ errs)
      | (inr x, e) => (data, e ++ (row_label row_num +:+ str_exn x) :: errs)
      end
  end.

(** The text [writerows] writes. *)
Fixpoint rows_text (fieldnames : list string) (data : list ProcessedRow) : string :=
  match data with
  | [] => EmptyString
  | r :: data' => Csv.writerow (cell r <$> fieldnames) +:+ rows_text fieldnames data'
  end.

(** The text [_write_output] writes: the header and the rows. *)
Definition output_text (fieldnames : list string) (data : list ProcessedRow) : string :=
  Csv.writerow fieldnames +:+ rows_text fieldnames data.

(** The files after [p] has been opened for writing and [text] written. *)
Definition written (files : gmap string Fs.node) (p text : string) : gmap string Fs.node :=
  match files !! p with
  | Some (Fs.File r _ _) => <[p := Fs.File r true text]> files
  | _ => <[p := Fs.File true true text]> files
  end.

(** Whether [p] can be opened for writing. *)
Definition can_write (files : gmap string Fs.node) (p : string) : bool :=
  match Fs.open_write files p with inl _ => true | inr _ => false end.

(** A record in front of the records of the rest of the text. *)
Definition and_then (cells : list string) (more : list (list string) * option exn)
    : list (list string) * option exn :=
  (cells :: more.1, more.2).

(** A character that needs no quoting. *)
Definition plain (c : ascii) : bool :=
  negb (Csv.is_newline c) && negb (Ascii.eqb c DQUOTE) && negb (Ascii.eqb c ",").

(* ===================================================================== *)
(** * [main] *)
(* ===================================================================== *)

(** How [main] ends: it returns, it leaves through [sys.exit], or an
    exception goes through it. *)
Inductive ending :=
  | Returned
  | SystemExit (code : Z)
  | Uncaught (e : exn).

Definition usage : string := "Usage: python csv_processor.py input.csv output.csv".

Section Main.

(** The text of [Path(arg)] for an argument, and the three marks that
    open the messages, whose code points lie outside the text modelled
    here. *)
Variable path_text : string → string.
Variables done_mark folder_mark failed_mark : string.

(** [main], run on the argument vector and the files: what it prints,
    line by line, how it ends, and the files it leaves. *)
Definition main (argv : list string) (files : gmap string Fs.node)
    : list string * ending * gmap string Fs.node :=
  match argv with
  | [_; input_file; output_file] =>
      let processor := fresh (path_text input_file) (path_text output_file) files in
      let printed := ["Processing " +:+ input_file +:+ "..."] in
      match process_csv processor with
      | (inr e, w) => (printed, Uncaught e, fs w)
      | (inl success, w) =>
          match get_summary w with
          | (inr e, w') => (printed, Uncaught e, fs w')
          | (inl summary, w') =>
              if (success : bool) then
                (printed
                 ++ [done_mark +:+ " Successfully processed "
                     +:+ str_int (summary_processed_rows summary) +:+ " rows";
                     folder_mark +:+ " Output written to: "
                     +:+ summary_output_file summary],
                 Returned, fs w')
              else
                (printed
                 ++ [failed_mark +:+ " Processing failed with errors:"]
                 ++ ((λ error, "   - " +:+ error) <$> summary_errors summary),
                 SystemExit 1, fs w')
          end
      end
  | _ => ([usage], SystemExit 1, files)
  end.

End Main.

(** ** Shapes used in the statements *)

(** The reader states in which a field of the record has been begun. *)
Definition in_record (r : Csv.Reader) : Prop :=
  match Csv.state r with
  | Csv.START_RECORD => False
  | Csv.EAT_CRNL => Csv.fields r ≠ []
  | _ => True
  end.

(** The first record is there and has a field. *)
Definition begins_with_fields (recs : list (list string) * option exn) : Prop :=
  match recs.1 with
  | (_ :: _) :: _ => True
  | _ => False
  end.

(** Two rows that hold the same under [id], [name] and [value]. *)
Definition same_required (row1 row2 : gmap (option string) Csv.value) : Prop :=
  row1 !! Some "id" = row2 !! Some "id"
  ∧ row1 !! Some "name" = row2 !! Some "name"
  ∧ row1 !! Some "value" = row2 !! Some "value".

(* ===================================================================== *)
(** * Test data *)
(* ===================================================================== *)

(** Test inputs are written with [|] for a line feed, [^] for a carriage
    return and [~] for a double quote. *)
Fixpoint txt (s : string) : string :=
  match s with
  | String c r =>
      String (if Ascii.eqb c "|" then Py.LF else if Ascii.eqb c "^" then Py.CR
              else if Ascii.eqb c "~" then Py.DQUOTE else c) (txt r)
  | EmptyString => EmptyString
  end.

Definition sample : string :=
  txt "id,name,value|1,Alice,10.5|2, ,5|3,Bob,-1|x,Eve,3|".

Definition sample_files : gmap string Fs.node :=
  {[ "in.csv" := Fs.File true true sample ]}.

Definition blank_world : World := fresh "in.csv" "out.csv" ∅.

(** A row whose value is not a number. *)
Definition nan_row : gmap (option string) Csv.value :=
  Csv.to_dict ["id"; "name"; "value"] ["1"; "Eve"; "nan"].

(** A row of one blank cell under a header of three columns. *)
Definition blank_short_row : gmap (option string) Csv.value :=
  Csv.to_dict ["id"; "name"; "value"] [" "].

(** A row of one cell under a header of three columns. *)
Definition short_row : gmap (option string) Csv.value :=
  Csv.to_dict ["id"; "name"; "value"] ["7"].

(** A row without a name and with a blank value. *)
Definition nameless_row : gmap (option string) Csv.value :=
  Csv.to_dict ["id"; "value"] ["7"; " "].

(** The first row of the sample, as accepted. *)
Definition alice : ProcessedRow :=
  {| id := 1; name := "Alice"; value := S754_finite false 5910974510923776 (-49) |}.

(** The first row of the sample, with a further column and a surplus
    cell, and without them. *)
Definition wide_row : gmap (option string) Csv.value :=
  Csv.to_dict ["id"; "name"; "value"; "note"] ["1"; "Alice"; "10.5"; "hello"; "more"].

Definition plain_row : gmap (option string) Csv.value :=
  Csv.to_dict ["id"; "name"; "value"] ["1"; "Alice"; "10.5"].



(** Files whose source holds a header and nothing else, nothing at all,
    or cannot be read. *)
Definition header_only_files : gmap string Fs.node :=
  {[ "in.csv" := Fs.File true true (txt "id,name,value|") ]}.

Definition empty_files : gmap string Fs.node :=
  {[ "in.csv" := Fs.File true true EmptyString ]}.

Definition locked_files : gmap string Fs.node :=
  {[ "in.csv" := Fs.File false true sample ]}.

(* ===================================================================== *)
(** * The library model on examples *)
(* ===================================================================== *)

Example strip_ex : Py.strip "  Bob	" = "Bob".
Proof. reflexivity. Qed.

Example int_ex1 : Py.int " 1_000 " = Some 1000.
Proof. reflexivity. Qed.

Example int_ex2 : Py.int "x" = None /\ Py.int " " = None /\ Py.int "-007" = Some (-7)
  /\ Py.int "1__0" = None /\ Py.int "1.0" = None /\ Py.int "1e3" = None.
Proof. repeat split; reflexivity. Qed.

Example float_ex1 :
  Py.float_of_str "10.5" = Some (S754_finite false 5910974510923776 (-49))
  /\ Py.float_of_str "0.1" = Some (S754_finite false 7205759403792794 (-56))
  /\ Py.float_of_str " -1 " = Some (S754_finite true 4503599627370496 (-52))
  /\ Py.float_of_str "1e400" = Some (Py.inf false)
  /\ Py.float_of_str "5e-324" = Some (S754_finite false 1 (-1074))
  /\ Py.float_of_str "2e-324" = Some (S754_zero false)
  /\ Py.float_of_str "NaN" = Some Py.nan
  /\ Py.float_of_str "-0" = Some (S754_zero true)
  /\ Py.float_of_str "1e" = None /\ Py.float_of_str "." = None
  /\ Py.float_of_str "1_0.5_0e1_0" = Py.float_of_str "10.50e10"
  /\ Py.float_of_str "1_.5" = None /\ Py.float_of_str "abc" = None.
Proof. vm_compute. repeat split. Qed.

Example repr_float_ex :
  Py.repr_float <$> Py.float_of_str "10.5" = Some "10.5"
  /\ Py.repr_float <$> Py.float_of_str "0.1" = Some "0.1"
  /\ Py.repr_float <$> Py.float_of_str "100" = Some "100.0"
  /\ Py.repr_float <$> Py.float_of_str "1e16" = Some "1e+16"
  /\ Py.repr_float <$> Py.float_of_str "1e15" = Some "1000000000000000.0"
  /\ Py.repr_float <$> Py.float_of_str "0.0001" = Some "0.0001"
  /\ Py.repr_float <$> Py.float_of_str "0.00001" = Some "1e-05"
  /\ Py.repr_float <$> Py.float_of_str "-1.5e-7" = Some "-1.5e-07"
  /\ Py.repr_float <$> Py.float_of_str "5e-324" = Some "5e-324"
  /\ Py.repr_float <$> Py.float_of_str "0.30000000000000004" = Some "0.30000000000000004"
  /\ Py.repr_float <$> Py.float_of_str "1.7976931348623157e308" = Some "1.7976931348623157e+308"
  /\ Py.repr_float <$> Py.float_of_str "9007199254740993" = Some "9007199254740992.0"
  /\ Py.repr_float <$> Py.float_of_str "123456789.125" = Some "123456789.125"
  /\ Py.repr_float <$> Py.float_of_str "2.5e-5" = Some "2.5e-05"
  /\ Py.repr_float <$> Py.float_of_str "1e22" = Some "1e+22"
  /\ Py.repr_float <$> Py.float_of_str "1e23" = Some "1e+23"
  /\ Py.repr_float <$> Py.float_of_str "-inf" = Some "-inf".
Proof. vm_compute. repeat split. Qed.

Example repr_str_ex :
  Py.repr_str "abc" = "'abc'" /\ Py.repr_str "it's" = String Py.DQUOTE ("it's" +:+ String Py.DQUOTE EmptyString)
  /\ Py.str_exn (Py.no_attribute "NoneType" "strip")
     = "'NoneType' object has no attribute 'strip'".
Proof. vm_compute. repeat split. Qed.

Example number_space_ex :
  let s := String (ascii_of_N 28) "5" in
  Py.strip s = "5" /\ Py.int s = None /\ Py.float_of_str s = None
  /\ Py.int (String (ascii_of_N 160) "5") = Some 5.
Proof. vm_compute. repeat split. Qed.

Example str_int_ex : Py.str_int (-120) = "-120" /\ Py.str_int 0 = "0".
Proof. split; reflexivity. Qed.

Example reader_ex :
  Csv.reader (txt "id,name|1,Al^|^|~a,b|c~~d~,x")
  = ([ ["id"; "name"]; ["1"; "Al"]; []; [txt "a,b|c~d"; "x"] ], None).
Proof. vm_compute. reflexivity. Qed.

Example reader_ex2 :
  Csv.reader (txt "a,b^c,|~x") = ([ ["a"; "b"]; ["c"; EmptyString]; ["x"] ], None)
  /\ Csv.reader EmptyString = ([], None)
  /\ Csv.reader (txt "|a") = ([ []; ["a"] ], None).
Proof. vm_compute. repeat split. Qed.

Example writerow_ex :
  Csv.writerow ["1"; txt "a,~b~"; "10.5"] = txt "1,~a,~~b~~~,10.5^|"
  /\ Csv.writerow [EmptyString] = txt "~~^|"
  /\ Csv.writerow [EmptyString; EmptyString] = txt ",^|"
  /\ Csv.writerow [] = txt "^|".
Proof. vm_compute. repeat split. Qed.

Example to_dict_ex :
  let short := Csv.to_dict ["id"; "name"; "value"] ["1"; "Al"] in
  let long := Csv.to_dict ["id"; "id"] ["1"; "2"; "3"] in
  short !! Some "id" = Some (Csv.VStr "1") /\ short !! Some "value" = Some Csv.VNone
  /\ short !! Some "other" = None
  /\ long !! Some "id" = Some (Csv.VStr "2") /\ long !! None = Some (Csv.VList ["3"])
  /\ Csv.to_dict ["id"; "name"; "id"] ["1"; "Al"] !! Some "id" = Some Csv.VNone.
Proof. vm_compute. repeat split. Qed.

Example sample_outcome :
  let '(r, w) := process_csv (fresh "in.csv" "out.csv" sample_files) in
  r = inl true
  /\ errors (self w) = ["Row 3: Missing required field 'name'";
                        "Row 4: Negative value not allowed";
                        "Row 5: Data conversion error - invalid literal for int() with base 10: 'x'"]
  /\ processed_rows (self w) = 1
  /\ Fs.content (fs w) "out.csv" = Some (txt "id,name,value^|1,Alice,10.5^|").
Proof. vm_compute. repeat split. Qed.

(* ===================================================================== *)
(** * Reasoning about [M] *)
(* ===================================================================== *)

Ltac munfold :=
  unfold mbind, mret, M_bind, M_ret, bind, ret, raise, get, lift,
    errors_append, count_row, set_fs in *.

Lemma bind_inl {A B} (m : M A) (k : A → M B) w a w' :
  m w = (inl a, w') → (m ≫= k) w = k a w'.
Proof. intros H. munfold. by rewrite H. Qed.

Lemma bind_inr {A B} (m : M A) (k : A → M B) w e w' :
  m w = (inr e, w') → (m ≫= k) w = (inr e, w').
Proof. intros H. munfold. by rewrite H. Qed.

Lemma appended_errors msg w : errors (self (appended msg w)) = errors (self w) ++ [msg].
Proof. reflexivity. Qed.

Lemma appended_fs msg w : fs (appended msg w) = fs w.
Proof. reflexivity. Qed.

(* ===================================================================== *)
(** * [get_summary] *)
(* ===================================================================== *)

(** C3. [get_summary] reports [success] exactly when [errors] is empty,
    returns without changing the object or the files, and a second call
    gives the same summary again. *)
Theorem get_summary_pure (w : World) :
  ∃ s, get_summary w = (inl s, w)
       ∧ (success s = true ↔ errors (self w) = [])
       ∧ (get_summary ≫= λ _, get_summary) w = (inl s, w).
Proof.
  eexists. split; [reflexivity|]. split.
  - simpl. rewrite bool_decide_eq_true. apply length_zero_iff_nil.
  - reflexivity.
Qed.

(* ===================================================================== *)
(** * [validate_input] *)
(* ===================================================================== *)

Lemma validate_input_eq w :
  let p := input_file (self w) in
  validate_input w =
    match fs w !! p with
    | None => (inl false, appended ("Input file not found: " +:+ p) w)
    | Some (Fs.File _ _ _) => (inl true, w)
    | Some _ => (inl false, appended ("Input path is not a file: " +:+ p) w)
    end.
Proof.
  unfold validate_input, Fs.path_exists, Fs.is_file. munfold. simpl.
  destruct (fs w !! input_file (self w)) as [[]|] eqn:E; simpl;
    rewrite ?E; reflexivity.
Qed.




(* ===================================================================== *)
(** * [_process_row] *)
(* ===================================================================== *)

(** *** Blank text is no number *)

Lemma lstrip_by_head space s :
  match lstrip_by space s with
  | String c _ => space c = false
  | EmptyString => True
  end.
Proof.
  induction s as [|c s IH]; [done|]. simpl.
  destruct (space c) eqn:E; [exact IH|exact E].
Qed.

Lemma rstrip_by_empty space c s :
  rstrip_by space (String c s) = EmptyString → space c = true.
Proof. simpl. by destruct (rstrip_by space s), (space c). Qed.

Lemma lstrip_empty s : lstrip_by isspace s = EmptyString → all_space s = true.
Proof.
  induction s as [|c s IH]; [done|]. simpl.
  destruct (isspace c); [exact IH|done].
Qed.

Lemma strip_empty s : strip s = EmptyString → all_space s = true.
Proof.
  unfold strip. intros H. apply lstrip_empty.
  pose proof (lstrip_by_head isspace s) as Hh.
  destruct (lstrip_by isspace s) as [|c t]; [done|].
  apply rstrip_by_empty in H. congruence.
Qed.

Lemma all_space_lstrip space s :
  all_space s = true → all_space (lstrip_by space s) = true.
Proof.
  induction s as [|c s IH]; [done|]. simpl. intros [Hc Hs]%andb_true_iff.
  destruct (space c); [by apply IH|]. simpl. by rewrite Hc, Hs.
Qed.

Lemma all_space_rstrip space s :
  all_space s = true → all_space (rstrip_by space s) = true.
Proof.
  induction s as [|c s IH]; [done|]. simpl. intros [Hc Hs]%andb_true_iff.
  specialize (IH Hs). destruct (rstrip_by space s).
  - destruct (space c); [done|]. simpl. by rewrite Hc.
  - simpl in *. by rewrite Hc, IH.
Qed.

Lemma strip_number_blank s :
  strip s = EmptyString →
  match strip_number s with
  | String c _ => isspace c = true
  | EmptyString => True
  end.
Proof.
  intros H%strip_empty. unfold strip_number.
  pose proof (all_space_rstrip isspace_number _
                (all_space_lstrip isspace_number _ H)) as Ha.
  destruct (rstrip_by _ _); [done|]. simpl in Ha.
  by apply andb_true_iff in Ha as [? _].
Qed.

(** A space is no sign, no digit, no underscore, no point and no letter. *)
Lemma space_is_no_token c :
  isspace c = true →
  Ascii.eqb c "-" = false ∧ Ascii.eqb c "+" = false ∧ Ascii.eqb c "_" = false
  ∧ Ascii.eqb c "." = false ∧ digit_value c = None ∧ lower c = c
  ∧ c ≠ "i"%char ∧ c ≠ "n"%char.
Proof.
  destruct c as [[] [] [] [] [] [] [] []]; vm_compute; intros H;
    try discriminate H; repeat split; discriminate.
Qed.

Lemma int_blank s : strip s = EmptyString → int s = None.
Proof.
  intros H%strip_number_blank. unfold int.
  destruct (strip_number s) as [|c r]; [done|].
  apply space_is_no_token in H as (-> & -> & Hu & _ & Hd & _).
  simpl. by rewrite Hd, Hu.
Qed.

Lemma float_blank s : strip s = EmptyString → float_of_str s = None.
Proof.
  intros H%strip_number_blank. unfold float_of_str.
  destruct (strip_number s) as [|c r]; [done|].
  apply space_is_no_token in H as (-> & -> & Hu & Hp & Hd & Hl & Hi & Hn).
  cbn [lower_str]. rewrite Hl.
  rewrite !bool_decide_eq_false_2 by (intros [=]; done).
  unfold number. cbn [digitpart orb]. rewrite Hd, Hu. cbn [mbind option_bind].
  assert (match String c r with
          | String "." r0 => digitpart 0 0 r0
          | _ => Some (0, 0, String c r)
          end = Some (0, 0, String c r)) as ->; [|done].
  apply Ascii.eqb_neq in Hp.
  destruct c as [[] [] [] [] [] [] [] []]; done.
Qed.

Lemma truthy_true s : truthy s = true ↔ s ≠ EmptyString.
Proof. by destruct s. Qed.

Lemma int_truthy s z : int s = Some z → truthy (strip s) = true.
Proof.
  intros H. apply truthy_true. intros E. by rewrite (int_blank _ E) in H.
Qed.

Lemma float_truthy s x : float_of_str s = Some x → truthy (strip s) = true.
Proof.
  intros H. apply truthy_true. intros E. by rewrite (float_blank _ E) in H.
Qed.

(** Closing a branch whose facts about blank text contradict each other. *)
Ltac truthy_clash :=
  exfalso;
  repeat match goal with
         | H : context [truthy ?x] |- _ => destruct (truthy x); simpl in *
         end;
  congruence.

(** Case analysis on whatever the goal (or a hypothesis) branches on. *)
Ltac step_match :=
  match goal with
  | |- context [match ?x with _ => _ end] =>
      lazymatch x with
      | context [match _ with _ => _ end] => fail
      | _ => destruct x eqn:?
      end
  | H : context [match ?x with _ => _ end] |- _ =>
      lazymatch x with
      | context [match _ with _ => _ end] => fail
      | _ => destruct x eqn:?
      end
  end.

Ltac row_unfold :=
  unfold _process_row, required_fields, check_required, try_except,
    strip_value, getitem, int_value, float_value, ValueError_or_TypeError,
    invalid_int, invalid_float, no_attribute in *;
  munfold; simpl in *.

(** The accepting run of the method. *)
Lemma process_row_accepts row n w i nm vs z x :
  row !! Some "id" = Some (Csv.VStr i) →
  row !! Some "name" = Some (Csv.VStr nm) →
  row !! Some "value" = Some (Csv.VStr vs) →
  int i = Some z → truthy (strip nm) = true →
  float_of_str vs = Some x → float_lt x zero = false →
  _process_row row n w = (inl (Some {| id := z; name := strip nm; value := x |}), w).
Proof.
  intros Hi Hn Hv Hz Hnm Hx Hlt.
  pose proof (int_truthy _ _ Hz) as Ti. pose proof (float_truthy _ _ Hx) as Tv.
  row_unfold. rewrite Hi, Hn, Hv. simpl. rewrite Ti, Hnm, Tv. simpl.
  rewrite Hz, Hx. simpl. by rewrite Hlt.
Qed.

(** What an accepted row was. *)
Lemma process_row_accepted row n w r w' :
  _process_row row n w = (inl (Some r), w') →
  w' = w ∧
  ∃ i nm vs,
    row !! Some "id" = Some (Csv.VStr i) ∧
    row !! Some "name" = Some (Csv.VStr nm) ∧
    row !! Some "value" = Some (Csv.VStr vs) ∧
    int i = Some (id r) ∧ truthy (strip nm) = true ∧ name r = strip nm ∧
    float_of_str vs = Some (value r) ∧ float_lt (value r) zero = false.
Proof.
  intros H. row_unfold.
  repeat (step_match; simpl in *; simplify_eq);
    (split; [reflexivity|]); do 3 eexists; repeat split; eauto;
    by apply negb_false_iff.
Qed.



(** The rest of what the method can do: a row that is not accepted
    either sends back [None], with one diagnostic appended, or raises,
    with nothing appended. *)
Lemma process_row_effect row n w :
  ∃ res w', _process_row row n w = (res, w')
    ∧ match res with
      | inl (Some _) => w' = w
      | inl None => ∃ msg, w' = appended (row_label n +:+ msg) w
      | inr e => w' = w
      end.
Proof.
  destruct (_process_row row n w) as [res w'] eqn:H. exists res, w'.
  split; [reflexivity|]. row_unfold.
  repeat (step_match; simpl in *; simplify_eq); eauto.
Qed.

Lemma process_row_missing row n w pre f post :
  required_fields = pre ++ f :: post →
  forallb (present row) pre = true →
  missing_or_blank row f = true →
  _process_row row n w
  = (inl None, appended (row_label n +:+ "Missing required field '" +:+ f +:+ "'") w).
Proof.
  unfold required_fields, present, missing_or_blank. intros Hsplit Hpre Hf.
  destruct pre as [|a [|b [|c pre]]]; simplify_eq/=;
    try (by destruct pre); row_unfold;
    repeat (step_match; simpl in *; simplify_eq); try done; truthy_clash.
Qed.

Lemma process_row_none row n w pre f post :
  required_fields = pre ++ f :: post →
  forallb (present row) pre = true →
  row !! Some f = Some Csv.VNone →
  _process_row row n w = (inr (no_attribute "NoneType" "strip"), w).
Proof.
  unfold required_fields, present. intros Hsplit Hpre Hf.
  destruct pre as [|a [|b [|c pre]]]; simplify_eq/=;
    try (by destruct pre); row_unfold;
    repeat (step_match; simpl in *; simplify_eq); try done; truthy_clash.
Qed.

(* ===================================================================== *)
(** * The loop over the rows *)
(* ===================================================================== *)

Section Loop.

Variable process_row : gmap (option string) Csv.value → Z → M (option ProcessedRow).

Lemma process_rows_cons row rest n data w :
  process_rows process_row (row :: rest) n data w =
    match process_row row n w with
    | (inl (Some r), w1) => process_rows process_row rest (n + 1) (data ++ [r]) (counted w1)
    | (inl None, w1) => process_rows process_row rest (n + 1) data w1
    | (inr e, w1) =>
        process_rows process_row rest (n + 1) data
          (appended (row_label n +:+ str_exn e) w1)
    end.
Proof.
  simpl. unfold try_except. munfold.
  by destruct (process_row row n w) as [[[r|]|e] w1].
Qed.

Lemma process_rows_returns rows : ∀ n data w,
  ∃ data' w', process_rows process_row rows n data w = (inl data', w').
Proof.
  induction rows as [|row rest IH]; intros n data w.
  - by exists data, w.
  - rewrite process_rows_cons.
    destruct (process_row row n w) as [[[r|]|e] w1]; apply IH.
Qed.



End Loop.



(** C5. A row gets at most one diagnostic.  The method appends nothing
    when it returns a row or raises, and exactly one diagnostic when it
    returns [None]; in the loop a row either is accepted, with nothing
    appended, or leaves exactly one diagnostic.  When a required field is
    absent or blank and the required fields before it are not, that one
    diagnostic is [Missing required field] for this field, whatever the
    fields after it hold. *)
Theorem one_diagnostic_per_row (row : gmap (option string) Csv.value) (n : Z) (w : World) :
  (∃ res w', _process_row row n w = (res, w')
     ∧ match res with
       | inl (Some _) => w' = w
       | inl None => ∃ msg, w' = appended (row_label n +:+ msg) w
       | inr e => w' = w
       end)
  ∧ (∀ data, ∃ data' w',
       process_rows _process_row [row] n data w = (inl data', w')
       ∧ ((∃ r, data' = data ++ [r] ∧ w' = counted w)
          ∨ (data' = data ∧ ∃ msg, w' = appended (row_label n +:+ msg) w)))
  ∧ (∀ pre f post,
       required_fields = pre ++ f :: post →
       forallb (present row) pre = true →
       missing_or_blank row f = true →
       _process_row row n w
       = (inl None,
          appended (row_label n +:+ "Missing required field '" +:+ f +:+ "'") w)).
Proof.
  split; [apply process_row_effect|]. split.
  - intros data. rewrite process_rows_cons.
    destruct (process_row_effect row n w) as ([[r|]|e] & w1 & -> & Hw); simpl.
    + subst. eauto 10.
    + destruct Hw as [msg ->]. eauto 10.
    + subst. eauto 10.
  - intros pre f post. apply process_row_missing.
Qed.

Lemma one_diagnostic_per_row_witness :
  _process_row nameless_row 9 blank_world
  = (inl None, appended "Row 9: Missing required field 'name'" blank_world).
Proof.
  apply (proj2 (proj2 (one_diagnostic_per_row nameless_row 9 blank_world))
           ["id"] "name" ["value"]); vm_compute; reflexivity.
Defined.

(** ** Rows that are too short *)

Lemma zip_fold_lookup (l : list (string * string)) : ∀ (d : gmap (option string) Csv.value) k v,
  foldl (λ d kv, <[Some kv.1 := Csv.VStr kv.2]> d) d l !! k = Some v →
  d !! k = Some v ∨ ∃ s, v = Csv.VStr s.
Proof.
  induction l as [|[a b] l IH]; intros d k v H; simpl in *; [by left|].
  destruct (IH _ _ _ H) as [H'|]; [|by right]. simpl in H'.
  destruct (decide (Some a = k)) as [<-|Hne].
  - rewrite lookup_insert_eq in H'. right. eexists. by simplify_eq.
  - rewrite lookup_insert_ne in H' by done. by left.
Qed.

(** Only a row with fewer cells than the header has columns holds [None]. *)
Lemma to_dict_none names cells f :
  Csv.to_dict names cells !! Some f = Some Csv.VNone →
  (length cells < length names)%nat.
Proof.
  unfold Csv.to_dict. intros H.
  destruct (length names <? length cells)%nat eqn:E1.
  - rewrite lookup_insert_ne in H by done.
    apply zip_fold_lookup in H as [H|[s H]]; [|done].
    by rewrite lookup_empty in H.
  - destruct (length cells <? length names)%nat eqn:E2.
    + by apply Nat.ltb_lt.
    + apply zip_fold_lookup in H as [H|[s H]]; [|done].
      by rewrite lookup_empty in H.
Qed.

(** C10, as the claim has it, fails: under a header of three columns the
    row of one blank cell is too short, its [name] and [value] are [None],
    and yet nothing is raised: the blank [id] is met first and the
    diagnostic is [Missing required field]. *)
Lemma blank_short_row_is_missing_field :
  (length [" "] < length ["id"; "name"; "value"])%nat
  ∧ blank_short_row !! Some "name" = Some Csv.VNone
  ∧ _process_row blank_short_row 2 blank_world
    = (inl None, appended "Row 2: Missing required field 'id'" blank_world)
  ∧ process_rows _process_row [blank_short_row] 2 [] blank_world
    = (inl [], appended "Row 2: Missing required field 'id'" blank_world).
Proof. vm_compute. repeat split; lia. Qed.

(** C10, amended. When the first required field of a row that does not
    hold text which is not blank holds [None] (the reader's mark for a
    cell the row is too short for), the method raises on trimming it; the
    loop records the diagnostic [Row n: 'NoneType' object has no
    attribute 'strip'], not a [Missing required field] one, goes on with
    the next row, and comes to its end. *)
Theorem missing_cell_is_caught (names cells : list string) (n : Z) (w : World)
    (pre : list string) (f : string) (post : list string)
    (rest : list (gmap (option string) Csv.value)) (data : list ProcessedRow) :
  required_fields = pre ++ f :: post →
  forallb (present (Csv.to_dict names cells)) pre = true →
  Csv.to_dict names cells !! Some f = Some Csv.VNone →
  (length cells < length names)%nat
  ∧ _process_row (Csv.to_dict names cells) n w
    = (inr (no_attribute "NoneType" "strip"), w)
  ∧ process_rows _process_row (Csv.to_dict names cells :: rest) n data w
    = process_rows _process_row rest (n + 1) data
        (appended (row_label n +:+ "'NoneType' object has no attribute 'strip'") w)
  ∧ ∃ data' w',
      process_rows _process_row (Csv.to_dict names cells :: rest) n data w
      = (inl data', w').
Proof.
  intros Hsplit Hpre Hf.
  pose proof (process_row_none _ n w _ _ _ Hsplit Hpre Hf) as Hraise.
  split; [by eapply to_dict_none|]. split; [exact Hraise|]. split.
  - rewrite process_rows_cons. by rewrite Hraise.
  - apply process_rows_returns.
Qed.

Lemma missing_cell_is_caught_witness :
  process_rows _process_row [short_row; nan_row] 2 [] blank_world
  = (inl [ {| id := 1; name := "Eve"; value := nan |} ],
     counted (appended "Row 2: 'NoneType' object has no attribute 'strip'" blank_world)).
Proof.
  destruct (missing_cell_is_caught ["id"; "name"; "value"] ["7"] 2 blank_world
              ["id"] "name" ["value"] [nan_row] [])
    as (_ & _ & -> & _); vm_compute; reflexivity.
Defined.

(* ===================================================================== *)
(** * Strings *)
(* ===================================================================== *)

Lemma str_app_cons c s t : String c s +:+ t = String c (s +:+ t).
Proof. reflexivity. Qed.

Lemma str_app_nil_l s : EmptyString +:+ s = s.
Proof. reflexivity. Qed.

Lemma str_app_nil_r s : s +:+ EmptyString = s.
Proof. induction s as [|c s IH]; [done|]. by rewrite str_app_cons, IH. Qed.

Lemma str_app_assoc s t u : (s +:+ t) +:+ u = s +:+ (t +:+ u).
Proof. induction s as [|c s IH]; [done|]. by rewrite !str_app_cons, IH. Qed.

(* ===================================================================== *)
(** * The reader never fails *)
(* ===================================================================== *)

Lemma is_newline_cases c : Csv.is_newline c = true → c = LF ∨ c = CR.
Proof.
  unfold Csv.is_newline. intros [H|H]%orb_true_iff; apply Ascii.eqb_eq in H; auto.
Qed.

Lemma line_goes_on c rest :
  Csv.is_newline c = true → Csv.ends_line c rest = false →
  ∃ rest', rest = String LF rest'.
Proof.
  intros [->| ->]%is_newline_cases; destruct rest as [|d rest]; try done; simpl.
  intros H. apply negb_false_iff, Ascii.eqb_eq in H. subst. eauto.
Qed.

Lemma records_never_fail text : ∀ r,
  (Csv.state r = Csv.EAT_CRNL → ∃ rest, text = String LF rest) →
  (Csv.records r text).2 = None.
Proof.
  induction text as [|c rest IH]; intros r Hr.
  { simpl. by destruct (_ || _). }
  set (next := λ r1 : Csv.Reader,
         if Csv.ends_line c rest
         then match Csv.parse_process_char r1 None with
              | inl r2 =>
                  if bool_decide (Csv.state r2 = Csv.START_RECORD)
                  then let '(rs, e) := Csv.records Csv.parse_reset rest in
                       (Csv.fields r2 :: rs, e)
                  else Csv.records r2 rest
              | inr e => ([], Some e)
              end
         else Csv.records r1 rest).
  change ((match Csv.parse_process_char r (Some c) with
           | inl r1 => next r1
           | inr e => ([], Some e)
           end).2 = None).
  assert (∀ r1, (Csv.state r1 = Csv.EAT_CRNL → Csv.is_newline c = true) →
                Csv.state r1 ≠ Csv.START_RECORD → (next r1).2 = None) as Hnext.
  { intros r1 Hst Hne. unfold next. destruct (Csv.ends_line c rest) eqn:El.
    - unfold Csv.parse_process_char.
      destruct (Csv.state r1) eqn:Es; try done; simpl;
        try (specialize (IH Csv.parse_reset ltac:(done));
             by destruct (Csv.records Csv.parse_reset rest)).
      rewrite bool_decide_eq_false_2 by (by rewrite Es).
      apply IH. by rewrite Es.
    - apply IH. intros E. by eapply line_goes_on; eauto. }
  clearbody next. unfold Csv.parse_process_char.
  destruct (Csv.state r) eqn:Es;
    repeat match goal with
           | |- context [if Csv.is_newline c then _ else _] =>
               destruct (Csv.is_newline c) eqn:?
           | |- context [if Ascii.eqb c ?d then _ else _] =>
               destruct (Ascii.eqb c d) eqn:?
           end;
    cbv beta iota; try (apply Hnext; cbn; by rewrite ?Es).
  destruct (Hr eq_refl) as [rest' Hrest]. simplify_eq.
Qed.

Lemma reader_never_fails text : (Csv.reader text).2 = None.
Proof. by apply records_never_fail. Qed.

Lemma dict_reader_never_fails text : Csv.failure (Csv.dict_reader text) = None.
Proof.
  unfold Csv.dict_reader. pose proof (reader_never_fails text) as H.
  destruct (Csv.reader text) as [[|names recs] e]; simpl in *; by subst.
Qed.

(* ===================================================================== *)
(** * A source that does not exist *)
(* ===================================================================== *)



(* ===================================================================== *)
(** * The effect of the loop *)
(* ===================================================================== *)

Lemma grow_nil w : grow [] 0 w = w.
Proof.
  destruct w as [[i o k e] f]. unfold grow. simpl.
  by rewrite Z.add_0_r, app_nil_r.
Qed.

Lemma grow_one msg w : grow [msg] 0 w = appended msg w.
Proof.
  destruct w as [[i o k e] f]. unfold grow, appended. simpl.
  by rewrite Z.add_0_r.
Qed.

Lemma grow_grow e1 k1 e2 k2 w : grow e2 k2 (grow e1 k1 w) = grow (e1 ++ e2) (k1 + k2) w.
Proof.
  destruct w as [[i o k e] f]. unfold grow. simpl.
  by rewrite Z.add_assoc, (assoc_L (++)).
Qed.

Lemma counted_grow w : counted w = grow [] 1 w.
Proof.
  destruct w as [[i o k e] f]. unfold grow, counted. simpl. by rewrite app_nil_r.
Qed.

(** The method does the same in every world. *)
Lemma process_row_eq row n w :
  _process_row row n w = ((row_result row n).1, grow (row_result row n).2 0 w).
Proof.
  unfold row_result. row_unfold.
  repeat (step_match; simpl in *; simplify_eq);
    by rewrite ?grow_nil, ?grow_one.
Qed.

Lemma process_rows_eq rows : ∀ n data w,
  process_rows _process_row rows n data w
  = (inl (data ++ (loop_result rows n).1),
     grow (loop_result rows n).2 (Z.of_nat (length (loop_result rows n).1)) w).
Proof.
  induction rows as [|row rest IH]; intros n data w.
  - simpl. by rewrite app_nil_r, grow_nil.
  - rewrite process_rows_cons, process_row_eq. simpl.
    destruct (loop_result rest (n + 1)) as [acc errs] eqn:El.
    destruct (row_result row n) as [[[r|]|x] e]; simpl;
      rewrite IH, El; simpl.
    + rewrite counted_grow, !grow_grow, <- (assoc_L (++)). simpl.
      do 2 f_equal. lia.
    + rewrite grow_grow. do 2 f_equal.
    + rewrite <- grow_one, !grow_grow. simpl.
      do 2 f_equal; rewrite <- ?(assoc_L (++)); simpl; try done; lia.
Qed.

(* ===================================================================== *)
(** * The keys of a row *)
(* ===================================================================== *)

Lemma zip_fold_key (l : list (string * string)) : ∀ (d : gmap (option string) Csv.value) k v,
  foldl (λ d kv, <[Some kv.1 := Csv.VStr kv.2]> d) d l !! Some k = Some v →
  d !! Some k = Some v ∨ k ∈ l.*1.
Proof.
  induction l as [|[a b] l IH]; intros d k v H; simpl in *; [by left|].
  destruct (IH _ _ _ H) as [H'|]; [|right; by constructor]. simpl in H'.
  destruct (decide (a = k)) as [<-|Hne].
  - right. by constructor.
  - rewrite lookup_insert_ne in H' by congruence. by left.
Qed.

Lemma none_fold_key (l : list string) : ∀ (d : gmap (option string) Csv.value) k v,
  foldl (λ d k', <[Some k' := Csv.VNone]> d) d l !! Some k = Some v →
  d !! Some k = Some v ∨ k ∈ l.
Proof.
  induction l as [|a l IH]; intros d k v H; simpl in *; [by left|].
  destruct (IH _ _ _ H) as [H'|]; [|right; by constructor].
  destruct (decide (a = k)) as [<-|Hne].
  - right. by constructor.
  - rewrite lookup_insert_ne in H' by congruence. by left.
Qed.

Lemma zip_keys (names cells : list string) k : k ∈ (zip names cells).*1 → k ∈ names.
Proof.
  intros ([a b] & -> & H)%list_elem_of_fmap. by eapply elem_of_zip_l.
Qed.

(** A string key of a row is a field name. *)
Lemma to_dict_key names cells k v :
  Csv.to_dict names cells !! Some k = Some v → k ∈ names.
Proof.
  unfold Csv.to_dict. intros H.
  assert (∀ v, foldl (λ d kv, <[Some kv.1 := Csv.VStr kv.2]> d)
                 (∅ : gmap (option string) Csv.value) (zip names cells)
               !! Some k = Some v → k ∈ names) as Hzip.
  { intros v' [H'|H']%zip_fold_key; [by rewrite lookup_empty in H'|].
    by eapply zip_keys. }
  destruct (length names <? length cells)%nat.
  - rewrite lookup_insert_ne in H by done. eauto.
  - destruct (length cells <? length names)%nat; [|eauto].
    apply none_fold_key in H as [H|H]; [eauto|].
    by eapply subseteq_drop.
Qed.

(** When the reader's rows have given an accepted row, the three keys
    of the processed rows are field names. *)
Lemma accepted_keys names (recs : list (list string)) : ∀ n,
  (loop_result (Csv.to_dict names <$> recs) n).1 ≠ [] →
  wrong_fields names = [].
Proof.
  induction recs as [|cells recs IH]; intros n; [done|].
  rewrite fmap_cons. cbn [loop_result].
  pose proof (IH (n + 1)) as IH'.
  destruct (loop_result (Csv.to_dict names <$> recs) (n + 1)) as [acc errs].
  simpl in IH'.
  destruct (row_result (Csv.to_dict names cells) n) as [[[r|]|x] e] eqn:Er;
    simpl; auto.
  intros _. pose proof (process_row_eq (Csv.to_dict names cells) n
                          (fresh EmptyString EmptyString ∅)) as Hrow.
  rewrite Er in Hrow. simpl in Hrow.
  apply process_row_accepted in Hrow
    as (_ & i & nm & vs & Hi & Hn & Hv & _).
  apply to_dict_key in Hi, Hn, Hv.
  unfold wrong_fields, keys.
  rewrite !filter_cons, filter_nil.
  by rewrite !decide_False by (intros Hc; by apply Hc).
Qed.

(* ===================================================================== *)
(** * [_write_output] *)
(* ===================================================================== *)

Lemma writerows_eq p names : wrong_fields names = [] →
  ∀ data slf files r wr t,
    files !! p = Some (Fs.File r wr t) →
    writerows p names data {| self := slf; fs := files |}
    = (inl (), {| self := slf;
                  fs := <[p := Fs.File r wr (t +:+ rows_text names data)]> files |}).
Proof.
  intros Hkeys. induction data as [|row data IH]; intros slf files r wr t Hp.
  - simpl. rewrite str_app_nil_r. by rewrite insert_id.
  - simpl. unfold dict_to_list. rewrite Hkeys. munfold. simpl.
    unfold Fs.write. rewrite Hp.
    erewrite IH by apply lookup_insert_eq.
    by rewrite insert_insert_eq, str_app_assoc.
Qed.

Lemma write_output_ok data names w files' :
  wrong_fields names = [] →
  Fs.open_write (fs w) (output_file (self w)) = inl files' →
  _write_output data names w
  = (inl (), with_fs (written (fs w) (output_file (self w)) (output_text names data)) w).
Proof.
  intros Hkeys Hopen. unfold _write_output, with_fs, written, output_text.
  munfold. rewrite Hopen. simpl. unfold Fs.open_write in Hopen.
  destruct (fs w !! output_file (self w)) as [[r [] t| |]|] eqn:E; simplify_eq;
    unfold Fs.write; rewrite lookup_insert_eq, insert_insert_eq;
    (erewrite writerows_eq by (done || apply lookup_insert_eq));
    by rewrite insert_insert_eq.
Qed.

Lemma write_output_fails data names w e :
  Fs.open_write (fs w) (output_file (self w)) = inr e →
  _write_output data names w = (inr e, w).
Proof. intros Hopen. unfold _write_output. munfold. by rewrite Hopen. Qed.

(* ===================================================================== *)
(** * [process_csv], case by case *)
(* ===================================================================== *)

Lemma process_csv_eq w :
  let p := input_file (self w) in
  let out := output_file (self w) in
  process_csv w =
    match fs w !! p with
    | None => (inl false, appended ("Input file not found: " +:+ p) w)
    | Some (Fs.File true _ text) =>
        match Csv.fieldnames (Csv.dict_reader text) with
        | None | Some [] => (inl false, appended "CSV file has no headers" w)
        | Some names =>
            let '(data, errs) := loop_result (Csv.rows (Csv.dict_reader text)) 2 in
            let w1 := grow errs (Z.of_nat (length data)) w in
            match data with
            | [] => (inl false, appended "No valid rows to process" w1)
            | _ :: _ =>
                match Fs.open_write (fs w) out with
                | inl _ =>
                    (inl true, with_fs (written (fs w) out (output_text names data)) w1)
                | inr e =>
                    (inl false, appended ("File processing error: " +:+ str_exn e) w1)
                end
            end
        end
    | Some (Fs.File false _ _) =>
        (inl false,
         appended ("File processing error: "
                   +:+ str_exn (Fs.os_error 13 "Permission denied" p)) w)
    | Some _ => (inl false, appended ("Input path is not a file: " +:+ p) w)
    end.
Proof.
  intros p out. unfold process_csv, process_csv_with.
  pose proof (validate_input_eq w) as Hv. simpl in Hv. fold p in Hv.
  destruct (fs w !! p) as [[[] wr text| |]|] eqn:Ep;
    erewrite bind_inl by exact Hv; simpl; try reflexivity.
  - unfold try_except, Exception. munfold. fold p.
    unfold Fs.open_read. rewrite Ep. simpl.
    pose proof (dict_reader_never_fails text) as Hok. rewrite Hok.
    destruct (Csv.fieldnames (Csv.dict_reader text)) as [[|name names]|] eqn:En;
      try reflexivity.
    rewrite process_rows_eq. simpl.
    destruct (loop_result (Csv.rows (Csv.dict_reader text)) 2) as [data errs] eqn:El.
    simpl. destruct data as [|r data]; [reflexivity|].
    set (w1 := grow errs _ w).
    assert (wrong_fields (name :: names) = []) as Hkeys.
    { unfold Csv.dict_reader in En, El.
      destruct (Csv.reader text) as [[|hd recs] err]; simpl in *; [done|].
      simplify_eq. eapply (accepted_keys _ _ 2). by rewrite El. }
    destruct (Fs.open_write (fs w) out) as [files'|e] eqn:Eo.
    + erewrite (write_output_ok _ _ w1) by (done || exact Eo). reflexivity.
    + erewrite (write_output_fails _ _ w1) by exact Eo. reflexivity.
  - unfold try_except, Exception. munfold. fold p.
    unfold Fs.open_read. by rewrite Ep.
Qed.



(* ===================================================================== *)
(** * Two runs on the same source *)
(* ===================================================================== *)

Lemma written_lookup_ne files p q text : p ≠ q → written files p text !! q = files !! q.
Proof.
  intros Hne. unfold written.
  destruct (files !! p) as [[]|]; by rewrite lookup_insert_ne.
Qed.

Lemma content_written files p text : Fs.content (written files p text) p = Some text.
Proof.
  unfold Fs.content, written.
  destruct (files !! p) as [[]|]; by rewrite lookup_insert_eq.
Qed.

(** A run changes no file but the output file. *)
Lemma process_csv_files w r w' q :
  process_csv w = (r, w') → q ≠ output_file (self w) → fs w' !! q = fs w !! q.
Proof.
  intros H Hq. pose proof (process_csv_eq w) as E. simpl in E.
  rewrite H in E. clear H.
  destruct (fs w !! input_file (self w)) as [[[] wr text| |]|];
    simplify_eq; try done.
  destruct (Csv.fieldnames (Csv.dict_reader text)) as [[|name names]|];
    simplify_eq; try done.
  destruct (loop_result (Csv.rows (Csv.dict_reader text)) 2) as [[|r0 data] errs];
    simplify_eq; try done.
  destruct (Fs.open_write (fs w) (output_file (self w))); simplify_eq; try done.
  simpl. by rewrite written_lookup_ne.
Qed.

(** C8. Two fresh objects run one after the other on the same source,
    which the first run leaves alone, each with an output path that can be
    opened for writing: both runs return the same, leave the same
    diagnostics and count the same rows, and when they have written, the
    two output files hold the same text. *)
Theorem two_runs_agree (files : gmap string Fs.node) (input out1 out2 : string)
    (r1 r2 : bool + exn) (w1 w2 : World) :
  process_csv (fresh input out1 files) = (r1, w1) →
  process_csv (fresh input out2 (fs w1)) = (r2, w2) →
  out1 ≠ input →
  can_write files out1 = true →
  can_write (fs w1) out2 = true →
  r1 = r2
  ∧ errors (self w1) = errors (self w2)
  ∧ processed_rows (self w1) = processed_rows (self w2)
  ∧ (r1 = inl true →
       ∃ text, Fs.content (fs w1) out1 = Some text
               ∧ Fs.content (fs w2) out2 = Some text).
Proof.
  intros H1 H2 Hne Hw1 Hw2.
  pose proof (process_csv_files _ _ _ input H1 (not_eq_sym Hne)) as Hsrc.
  pose proof (process_csv_eq (fresh input out1 files)) as E1.
  pose proof (process_csv_eq (fresh input out2 (fs w1))) as E2.
  simpl in E1, E2, Hsrc. rewrite H1 in E1. rewrite H2 in E2. rewrite Hsrc in E2.
  unfold can_write in Hw1, Hw2.
  destruct (Fs.open_write files out1) as [f1|] eqn:Eo1; [|done].
  destruct (Fs.open_write (fs w1) out2) as [f2|] eqn:Eo2; [|done].
  clear H1 H2 Hsrc Hw1 Hw2.
  destruct (files !! input) as [[[] wr text| |]|]; simplify_eq; try by repeat split.
  destruct (Csv.fieldnames (Csv.dict_reader text)) as [[|name names]|];
    simplify_eq; try by repeat split.
  destruct (loop_result (Csv.rows (Csv.dict_reader text)) 2) as [[|r data] errs];
    simplify_eq; [by repeat split|].
  repeat split.
  intros _. eexists. simpl. by rewrite !content_written.
Qed.

Lemma two_runs_agree_witness :
  let run1 := process_csv (fresh "in.csv" "a.csv" sample_files) in
  let run2 := process_csv (fresh "in.csv" "b.csv" (fs run1.2)) in
  run1.1 = run2.1
  ∧ errors (self run1.2) = errors (self run2.2)
  ∧ processed_rows (self run1.2) = processed_rows (self run2.2)
  ∧ (run1.1 = inl true →
       ∃ text, Fs.content (fs run1.2) "a.csv" = Some text
               ∧ Fs.content (fs run2.2) "b.csv" = Some text).
Proof.
  intros run1 run2.
  apply (two_runs_agree sample_files "in.csv" "a.csv" "b.csv"
           run1.1 run2.1 run1.2 run2.2).
  - apply surjective_pairing.
  - apply surjective_pairing.
  - discriminate.
  - vm_compute. reflexivity.
  - vm_compute. reflexivity.
Defined.

(* ===================================================================== *)
(** * Reading back what the writer wrote *)
(* ===================================================================== *)

Lemma contains_cons c d s :
  contains c (String d s) = Ascii.eqb c d || contains c s.
Proof. reflexivity. Qed.

Lemma needs_quotes_cons c s :
  Csv.needs_quotes (String c s) = false → plain c = true ∧ Csv.needs_quotes s = false.
Proof.
  unfold Csv.needs_quotes, plain, Csv.is_newline. rewrite !contains_cons.
  rewrite !(Ascii.eqb_sym _ c). intros H.
  repeat match goal with
         | H : _ || _ = false |- _ => apply orb_false_iff in H as [? ?]
         end.
  repeat match goal with H : _ = false |- _ => rewrite H; clear H end.
  done.
Qed.

Lemma plain_facts c :
  plain c = true →
  Csv.is_newline c = false ∧ Ascii.eqb c DQUOTE = false ∧ Ascii.eqb c "," = false.
Proof.
  unfold plain. destruct (Csv.is_newline c), (Ascii.eqb c DQUOTE), (Ascii.eqb c ",");
    by simpl.
Qed.

Lemma ends_line_inside c rest :
  Csv.is_newline c = false → rest ≠ EmptyString → Csv.ends_line c rest = false.
Proof.
  unfold Csv.is_newline. intros [H1 H2]%orb_false_iff Hrest.
  destruct rest as [|d rest]; [done|]. simpl. by rewrite H1, H2.
Qed.

Lemma app_not_empty s t : t ≠ EmptyString → s +:+ t ≠ EmptyString.
Proof. by destruct s. Qed.

Lemma records_cons r c rest :
  Csv.records r (String c rest) =
    match Csv.parse_process_char r (Some c) with
    | inr e => ([], Some e)
    | inl r1 =>
        if Csv.ends_line c rest then
          match Csv.parse_process_char r1 None with
          | inr e => ([], Some e)
          | inl r2 =>
              if bool_decide (Csv.state r2 = Csv.START_RECORD)
              then and_then (Csv.fields r2) (Csv.records Csv.parse_reset rest)
              else Csv.records r2 rest
          end
        else Csv.records r1 rest
    end.
Proof.
  simpl. unfold and_then.
  by destruct (Csv.records Csv.parse_reset rest).
Qed.

(** The characters of a field that is written as it is. *)
Lemma records_plain s : ∀ fld flds rest,
  Csv.needs_quotes s = false → rest ≠ EmptyString →
  Csv.records {| Csv.state := Csv.IN_FIELD; Csv.field := fld; Csv.fields := flds |}
    (s +:+ rest)
  = Csv.records {| Csv.state := Csv.IN_FIELD; Csv.field := fld +:+ s;
                   Csv.fields := flds |} rest.
Proof.
  induction s as [|c s IH]; intros fld flds rest Hs Hrest.
  - by rewrite str_app_nil_r.
  - apply needs_quotes_cons in Hs as [(Hn & Hq & Hc)%plain_facts Hs].
    rewrite str_app_cons, records_cons. unfold Csv.parse_process_char. simpl.
    rewrite Hn, Hc, (ends_line_inside c) by (done || by apply app_not_empty).
    unfold Csv.parse_add_char. simpl. rewrite IH by done.
    by rewrite str_app_assoc.
Qed.

(** The characters of a field that is written in quotes. *)
Lemma records_quoted s : ∀ fld flds rest,
  rest ≠ EmptyString →
  Csv.records {| Csv.state := Csv.IN_QUOTED_FIELD; Csv.field := fld;
                 Csv.fields := flds |} (Csv.double_quotes s +:+ rest)
  = Csv.records {| Csv.state := Csv.IN_QUOTED_FIELD; Csv.field := fld +:+ s;
                   Csv.fields := flds |} rest.
Proof.
  induction s as [|c s IH]; intros fld flds rest Hrest.
  - by rewrite str_app_nil_r.
  - assert (Csv.double_quotes s +:+ rest ≠ EmptyString) as Hmore
      by by apply app_not_empty.
    simpl. destruct (Ascii.eqb c DQUOTE) eqn:Ec.
    + apply Ascii.eqb_eq in Ec as ->.
      rewrite !str_app_cons, records_cons. unfold Csv.parse_process_char. simpl.
      rewrite (ends_line_inside DQUOTE) by done.
      unfold Csv.set_state, Csv.parse_add_char. simpl. rewrite IH by done.
      by rewrite str_app_assoc.
    + rewrite str_app_cons, records_cons. unfold Csv.parse_process_char. simpl.
      rewrite Ec. unfold Csv.parse_add_char. simpl.
      destruct (Csv.ends_line c _); simpl; rewrite IH by done;
        by rewrite str_app_assoc.
Qed.

Ltac reader_step :=
  repeat (rewrite str_app_nil_l || rewrite str_app_cons);
  rewrite records_cons;
  unfold Csv.parse_process_char, Csv.set_state, Csv.parse_save_field,
    Csv.parse_add_char; simpl.

(** A field and the comma after it. *)
Lemma field_comma f st flds rest :
  st = Csv.START_RECORD ∨ st = Csv.START_FIELD → rest ≠ EmptyString →
  Csv.records {| Csv.state := st; Csv.field := EmptyString; Csv.fields := flds |}
    (Csv.join_append f +:+ String "," rest)
  = Csv.records {| Csv.state := Csv.START_FIELD; Csv.field := EmptyString;
                   Csv.fields := flds ++ [f] |} rest.
Proof.
  intros Hst Hrest. unfold Csv.join_append.
  destruct (Csv.needs_quotes f) eqn:Eq.
  - rewrite str_app_cons, str_app_assoc.
    transitivity (Csv.records {| Csv.state := Csv.IN_QUOTED_FIELD;
                                 Csv.field := EmptyString; Csv.fields := flds |}
                    (Csv.double_quotes f +:+ String DQUOTE (String "," rest))).
    { destruct Hst as [-> | ->]; reader_step;
        by rewrite (ends_line_inside DQUOTE) by (done || by apply app_not_empty). }
    rewrite records_quoted by done. reader_step.
    by rewrite (ends_line_inside ",") by done.
  - destruct f as [|c f].
    + destruct Hst as [-> | ->]; reader_step;
        by rewrite (ends_line_inside ",") by done.
    + apply needs_quotes_cons in Eq as [(Hn & Hq & Hc)%plain_facts Eq].
      transitivity (Csv.records {| Csv.state := Csv.IN_FIELD;
                                   Csv.field := String c EmptyString;
                                   Csv.fields := flds |}
                      (f +:+ String "," rest)).
      { destruct Hst as [-> | ->]; reader_step; rewrite Hn, Hq, Hc;
          by rewrite (ends_line_inside c) by (done || by apply app_not_empty). }
      rewrite records_plain by done. reader_step.
      by rewrite (ends_line_inside ",") by done.
Qed.

(** What the line terminator does after a field has been saved. *)
Lemma terminator flds rest :
  Csv.records {| Csv.state := Csv.EAT_CRNL; Csv.field := EmptyString;
                 Csv.fields := flds |} (String LF rest)
  = and_then flds (Csv.records Csv.parse_reset rest).
Proof.
  reader_step. by destruct rest.
Qed.

(** The last field of a record and the line terminator after it. *)
Lemma field_crlf f st flds rest :
  st = Csv.START_RECORD ∨ st = Csv.START_FIELD →
  (st = Csv.START_RECORD → Csv.join_append f ≠ EmptyString) →
  Csv.records {| Csv.state := st; Csv.field := EmptyString; Csv.fields := flds |}
    (Csv.join_append f +:+ Csv.lineterminator +:+ rest)
  = and_then (flds ++ [f]) (Csv.records Csv.parse_reset rest).
Proof.
  intros Hst Hfirst. unfold Csv.join_append, Csv.lineterminator in *.
  rewrite <- terminator.
  destruct (Csv.needs_quotes f) eqn:Eq.
  - rewrite str_app_cons, str_app_assoc.
    transitivity (Csv.records {| Csv.state := Csv.IN_QUOTED_FIELD;
                                 Csv.field := EmptyString; Csv.fields := flds |}
                    (Csv.double_quotes f +:+ String DQUOTE (String CR (String LF rest)))).
    { destruct Hst as [-> | ->]; reader_step;
        by rewrite (ends_line_inside DQUOTE) by (done || by apply app_not_empty). }
    rewrite records_quoted by done. by reader_step.
  - destruct f as [|c f].
    + destruct Hst as [-> | ->]; [by destruct (Hfirst eq_refl)|]. by reader_step.
    + apply needs_quotes_cons in Eq as [(Hn & Hq & Hc)%plain_facts Eq].
      transitivity (Csv.records {| Csv.state := Csv.IN_FIELD;
                                   Csv.field := String c EmptyString;
                                   Csv.fields := flds |}
                      (f +:+ String CR (String LF rest))).
      { destruct Hst as [-> | ->]; reader_step; rewrite Hn, Hq, Hc;
          by rewrite (ends_line_inside c) by (done || by apply app_not_empty). }
      rewrite records_plain by done. by reader_step.
Qed.

Lemma join_cons2 c c' more :
  Csv.join (c :: c' :: more) = Csv.join_append c +:+ String "," (Csv.join (c' :: more)).
Proof. reflexivity. Qed.

Lemma join_empty cells :
  cells ≠ [] → Csv.join cells = EmptyString → cells = [EmptyString].
Proof.
  destruct cells as [|c [|c' more]]; [done| |].
  - intros _. simpl. unfold Csv.join_append.
    destruct (Csv.needs_quotes c); [done|]. by intros ->.
  - intros _. rewrite join_cons2. intros H. by apply app_not_empty in H.
Qed.

Lemma terminated_not_empty s rest : s +:+ Csv.lineterminator +:+ rest ≠ EmptyString.
Proof. apply app_not_empty. unfold Csv.lineterminator. by rewrite str_app_cons. Qed.

(** The fields of a record and the line terminator after them. *)
Lemma join_crlf cells : ∀ st flds rest,
  cells ≠ [] →
  st = Csv.START_RECORD ∨ st = Csv.START_FIELD →
  (st = Csv.START_RECORD → Csv.join cells ≠ EmptyString) →
  Csv.records {| Csv.state := st; Csv.field := EmptyString; Csv.fields := flds |}
    (Csv.join cells +:+ Csv.lineterminator +:+ rest)
  = and_then (flds ++ cells) (Csv.records Csv.parse_reset rest).
Proof.
  induction cells as [|c cells IH]; intros st flds rest Hne Hst Hfirst; [done|].
  destruct cells as [|c' more].
  - simpl. by apply field_crlf.
  - rewrite join_cons2, str_app_assoc, str_app_cons.
    rewrite field_comma by (done || apply terminated_not_empty).
    rewrite IH by (done || by right). by rewrite <- (assoc_L (++)).
Qed.

(** A written row reads back as its cells. *)
Lemma writerow_read cells rest :
  Csv.records Csv.parse_reset (Csv.writerow cells +:+ rest)
  = and_then cells (Csv.records Csv.parse_reset rest).
Proof.
  unfold Csv.writerow. unfold Csv.parse_reset at 1. rewrite str_app_assoc.
  destruct cells as [|c cells].
  - rewrite (bool_decide_eq_false_2 ([] ≠ [])) by (by intros H).
    simpl andb. cbv iota. simpl Csv.join.
    rewrite <- terminator. unfold Csv.lineterminator. by reader_step.
  - rewrite bool_decide_eq_true_2 by done. rewrite andb_true_l.
    destruct (truthy (Csv.join (c :: cells))) eqn:Et; simpl negb; cbv iota.
    + apply truthy_true in Et. by rewrite join_crlf by (done || by left).
    + assert (Csv.join (c :: cells) = EmptyString) as Hj
        by by destruct (Csv.join (c :: cells)).
      apply join_empty in Hj as ->; [|done].
      rewrite <- terminator. unfold Csv.lineterminator. by reader_step.
Qed.

Lemma rows_text_read names data :
  Csv.records Csv.parse_reset (rows_text names data)
  = ((λ r, cell r <$> names) <$> data, None).
Proof.
  induction data as [|r data IH]; [done|].
  simpl. by rewrite writerow_read, IH.
Qed.

(** The output file reads back as the header and the cells of the rows. *)
Lemma output_text_read names data :
  Csv.reader (output_text names data)
  = (names :: ((λ r, cell r <$> names) <$> data), None).
Proof.
  unfold Csv.reader, output_text. by rewrite writerow_read, rows_text_read.
Qed.

(* ===================================================================== *)
(** * [strip] twice, [int] of [str] *)
(* ===================================================================== *)

Section Strip.

Variable space : ascii → bool.

Lemma rstrip_idem s : rstrip_by space (rstrip_by space s) = rstrip_by space s.
Proof.
  induction s as [|c s IH]; [done|]. simpl.
  destruct (rstrip_by space s) as [|d t] eqn:E.
  - destruct (space c) eqn:Ec; [done|]. simpl. by rewrite Ec.
  - cbn [rstrip_by]. cbn [rstrip_by] in IH. by rewrite IH.
Qed.

Lemma lstrip_unspaced c s :
  space c = false → lstrip_by space (String c s) = String c s.
Proof. intros H. simpl. by rewrite H. Qed.

Lemma lstrip_rstrip_lstrip s :
  lstrip_by space (rstrip_by space (lstrip_by space s))
  = rstrip_by space (lstrip_by space s).
Proof.
  induction s as [|c s IH]; [done|]. simpl.
  destruct (space c) eqn:Ec; [done|]. simpl.
  destruct (rstrip_by space s); rewrite ?Ec; by rewrite lstrip_unspaced.
Qed.

End Strip.

Lemma strip_idem s : strip (strip s) = strip s.
Proof. unfold strip. by rewrite lstrip_rstrip_lstrip, rstrip_idem. Qed.

Lemma digits_value_pos d : ∀ p,
  digits_value (Zpos p) d = Zpos (Pos.of_uint_acc d p).
Proof.
  induction d; intros p; simpl; [done|..]; rewrite <- IHd; f_equal; lia.
Qed.

Lemma digits_value_zero d : digits_value 0 d = Z.of_N (Pos.of_uint d).
Proof.
  induction d; simpl; try done; by rewrite <- digits_value_pos.
Qed.

Lemma int_digits_uint d : ∀ acc b,
  b = true ∨ d ≠ Decimal.Nil →
  int_digits acc b (NilEmpty.string_of_uint d) = Some (digits_value acc d).
Proof.
  induction d; intros acc b Hb; simpl;
    try (rewrite IHd by (by left); do 2 f_equal; unfold code; simpl; lia).
  by destruct Hb as [->|].
Qed.

Lemma strip_uint d :
  strip_number (NilEmpty.string_of_uint d) = NilEmpty.string_of_uint d.
Proof.
  unfold strip_number.
  assert (rstrip_by isspace_number (NilEmpty.string_of_uint d)
          = NilEmpty.string_of_uint d) as Hr.
  { induction d; simpl; rewrite ?IHd; try done;
      by destruct (NilEmpty.string_of_uint d). }
  destruct d; simpl; try done;
    simpl in Hr; by rewrite Hr.
Qed.

Lemma uint_not_empty p : NilEmpty.string_of_uint (Pos.to_uint p) ≠ EmptyString.
Proof.
  pose proof (Unsigned.to_uint_nonnil p) as H.
  by destruct (Pos.to_uint p).
Qed.

Lemma uint_nil_zero p :
  NilZero.string_of_uint (Pos.to_uint p) = NilEmpty.string_of_uint (Pos.to_uint p).
Proof.
  pose proof (Unsigned.to_uint_nonnil p) as H. by destruct (Pos.to_uint p).
Qed.

Lemma int_digits_pos p :
  int_digits 0 false (NilEmpty.string_of_uint (Pos.to_uint p)) = Some (Zpos p).
Proof.
  rewrite int_digits_uint by (right; apply Unsigned.to_uint_nonnil).
  by rewrite digits_value_zero, Unsigned.of_to.
Qed.

(** An integer reads back from its decimal form. *)
Lemma int_str_int z : int (str_int z) = Some z.
Proof.
  unfold str_int, int. destruct z as [|p|p]; [done| |];
    cbn [Z.to_int NilZero.string_of_int]; rewrite uint_nil_zero.
  - rewrite strip_uint. rewrite <- int_digits_pos.
    pose proof (Unsigned.to_uint_nonnil p) as Hnil.
    by destruct (Pos.to_uint p).
  - assert (strip_number (String "-" (NilEmpty.string_of_uint (Pos.to_uint p)))
            = String "-" (NilEmpty.string_of_uint (Pos.to_uint p))) as ->.
    { pose proof (strip_uint (Pos.to_uint p)) as Hs.
      pose proof (uint_not_empty p) as Hne.
      unfold strip_number in *. simpl.
      destruct (NilEmpty.string_of_uint (Pos.to_uint p)) as [|c t] eqn:E; [done|].
      destruct (isspace_number c) eqn:Ec.
      - exfalso. clear -E Ec. destruct (Pos.to_uint p); simplify_eq/=; done.
      - rewrite lstrip_unspaced in Hs by done. by rewrite Hs. }
    simpl. by rewrite int_digits_pos.
Qed.

(* ===================================================================== *)
(** * Reading the output file back *)
(* ===================================================================== *)

Lemma zip_fold_map (f : string → string) (l : list string) :
  ∀ (d : gmap (option string) Csv.value) k,
    foldl (λ d kv, <[Some kv.1 := Csv.VStr kv.2]> d) d (zip l (f <$> l)) !! Some k
    = if decide (k ∈ l) then Some (Csv.VStr (f k)) else d !! Some k.
Proof.
  induction l as [|a l IH]; intros d k.
  - destruct (decide (k ∈ [])) as [H|H]; [by apply elem_of_nil in H|done].
  - rewrite fmap_cons. cbn [zip zip_with foldl]. rewrite IH. cbn [fst snd].
    destruct (decide (k ∈ l)) as [Hin|Hnin], (decide (k ∈ a :: l)) as [Hin'|Hnin'];
      try done.
    + destruct Hnin'. by right.
    + apply elem_of_cons in Hin' as [->|?]; [|done]. by rewrite lookup_insert_eq.
    + rewrite lookup_insert_ne; [done|]. intros ?. simplify_eq.
      destruct Hnin'. by left.
Qed.

(** The row that is read from the cells written for [r]. *)
Lemma to_dict_cells names (f : string → string) k :
  k ∈ names → Csv.to_dict names (f <$> names) !! Some k = Some (Csv.VStr (f k)).
Proof.
  intros Hk. unfold Csv.to_dict. rewrite length_fmap, Nat.ltb_irrefl.
  rewrite zip_fold_map. by rewrite decide_True.
Qed.

Lemma wrong_fields_nil names :
  wrong_fields names = [] → "id" ∈ names ∧ "name" ∈ names ∧ "value" ∈ names.
Proof.
  unfold wrong_fields, keys. intros H.
  repeat split; apply dec_stable; intros Hn;
    eapply (filter_nil_not_elem_of _ _ _ H Hn); set_solver.
Qed.

(** Reading back the cells written for an accepted row gives the row. *)
Lemma reread_row names r n w :
  wrong_fields names = [] →
  strip (name r) = name r → truthy (name r) = true →
  float_lt (value r) zero = false →
  float_of_str (repr_float (value r)) = Some (value r) →
  _process_row (Csv.to_dict names (cell r <$> names)) n w = (inl (Some r), w).
Proof.
  intros (Hi & Hn & Hv)%wrong_fields_nil Hstrip Hname Hlt Hfloat.
  rewrite (process_row_accepts _ n w (str_int (id r)) (name r)
             (repr_float (value r)) (id r) (value r)).
  - destruct r as [i nm v]. simpl in *. by rewrite Hstrip.
  - exact (to_dict_cells names (cell r) "id" Hi).
  - exact (to_dict_cells names (cell r) "name" Hn).
  - exact (to_dict_cells names (cell r) "value" Hv).
  - apply int_str_int.
  - by rewrite Hstrip.
  - exact Hfloat.
  - exact Hlt.
Qed.

(** Every row in the loop's list was returned by the method. *)
Lemma loop_accepted rows : ∀ n r,
  r ∈ (loop_result rows n).1 →
  ∃ row m w0 w1, _process_row row m w0 = (inl (Some r), w1).
Proof.
  induction rows as [|row rows IH]; intros n r; simpl; [by intros ?%elem_of_nil|].
  pose proof (IH (n + 1) r) as IH'.
  destruct (loop_result rows (n + 1)) as [acc errs]. simpl in IH'.
  pose proof (process_row_eq row n (fresh EmptyString EmptyString ∅)) as Hrow.
  destruct (row_result row n) as [[[r'|]|x] e]; simpl in *; auto.
  intros [->|Hin]%elem_of_cons; eauto.
Qed.

Lemma accepted_shape row n w0 w1 r :
  _process_row row n w0 = (inl (Some r), w1) →
  strip (name r) = name r ∧ truthy (name r) = true ∧ float_lt (value r) zero = false.
Proof.
  intros (_ & i & nm & vs & _ & _ & _ & _ & Hnm & -> & _ & Hlt)%process_row_accepted.
  by rewrite strip_idem.
Qed.

Lemma reread_rows names data : ∀ n acc w,
  wrong_fields names = [] →
  Forall (λ r, strip (name r) = name r ∧ truthy (name r) = true
               ∧ float_lt (value r) zero = false
               ∧ float_of_str (repr_float (value r)) = Some (value r)) data →
  process_rows _process_row
    (Csv.to_dict names <$> ((λ r, cell r <$> names) <$> data)) n acc w
  = (inl (acc ++ data), grow [] (Z.of_nat (length data)) w).
Proof.
  induction data as [|r data IH]; intros n acc w Hkeys Hall.
  - simpl. by rewrite app_nil_r, grow_nil.
  - apply Forall_cons in Hall as [(Hs & Ht & Hlt & Hf) Hall].
    rewrite !fmap_cons, process_rows_cons, reread_row by done.
    rewrite IH by done. rewrite counted_grow, grow_grow, <- (assoc_L (++)).
    simpl. do 2 f_equal. lia.
Qed.

Lemma filter_cells names (data : list ProcessedRow) :
  names ≠ [] →
  filter (λ r : list string, r ≠ []) ((λ r, cell r <$> names) <$> data)
  = (λ r, cell r <$> names) <$> data.
Proof.
  intros Hne. induction data as [|r data IH]; [done|].
  rewrite fmap_cons, filter_cons_True, IH; [done|].
  by destruct names.
Qed.



(* ===================================================================== *)
(** * What a run does to the object and to the files *)
(* ===================================================================== *)

Lemma appended_grow msg errs k w :
  appended msg (grow errs k w) = grow (errs ++ [msg]) k w.
Proof. by rewrite <- grow_one, grow_grow, Z.add_0_r. Qed.

(** The cases of [process_csv], each as a growth of the object. *)
Lemma process_csv_grows w :
  ∃ b w' more k,
    process_csv w = (inl b, w')
    ∧ self w' = self (grow more k w)
    ∧ 0 ≤ k
    ∧ (b = false → more ≠ [] ∧ fs w' = fs w)
    ∧ (∀ q, q ≠ output_file (self w) → fs w' !! q = fs w !! q).
Proof.
  pose proof (process_csv_eq w) as E. simpl in E.
  assert (∀ msg, ∃ b w' more k,
            (inl false, appended msg w) = (inl b : bool + exn, w')
            ∧ self w' = self (grow more k w) ∧ 0 ≤ k
            ∧ (b = false → more ≠ [] ∧ fs w' = fs w)
            ∧ (∀ q, q ≠ output_file (self w) → fs w' !! q = fs w !! q)) as Hone.
  { intros msg. exists false, (appended msg w), [msg], 0.
    rewrite grow_one. by repeat split. }
  destruct (fs w !! input_file (self w)) as [[[] wr text| |]|];
    rewrite E; try apply Hone.
  destruct (Csv.fieldnames (Csv.dict_reader text)) as [[|hd names]|];
    try apply Hone.
  destruct (loop_result (Csv.rows (Csv.dict_reader text)) 2) as [data errs].
  destruct data as [|r data].
  - eexists false, _, (errs ++ ["No valid rows to process"]), _.
    split; [reflexivity|]. rewrite appended_grow.
    split; [reflexivity|]. split; [lia|]. split; [|done].
    intros _. split; [by destruct errs|done].
  - destruct (Fs.open_write (fs w) (output_file (self w))) as [f|e].
    + eexists true, _, errs, _. split; [reflexivity|].
      split; [reflexivity|]. split; [lia|]. split; [done|].
      intros q Hq. simpl. by rewrite written_lookup_ne.
    + eexists false, _, (errs ++ [_]), _. split; [reflexivity|].
      rewrite appended_grow.
      split; [reflexivity|]. split; [lia|]. split; [|done].
      intros _. split; [by destruct errs|done].
Qed.


(** X2. A failure is never silent: when [process_csv] returns [False]
    it has appended at least one diagnostic, so [get_summary] reports
    [success] as false and its list of errors is not empty. *)
Theorem failure_is_reported (w w' : World) :
  process_csv w = (inl false, w') →
  ∃ s more, get_summary w' = (inl s, w')
            ∧ success s = false
            ∧ summary_errors s = errors (self w) ++ more
            ∧ more ≠ [].
Proof.
  intros H.
  destruct (process_csv_grows w) as (b & w0 & more & k & H0 & Hs & _ & Hf & _).
  rewrite H in H0. simplify_eq. destruct (Hf eq_refl) as [Hmore _].
  eexists _, more. split; [reflexivity|]. simpl. rewrite Hs. simpl.
  repeat split; [|done].
  apply bool_decide_eq_false. rewrite length_app.
  destruct more; [done|]. simpl. lia.
Qed.

Lemma failure_is_reported_witness :
  ∃ s more,
    get_summary (process_csv (fresh "missing.csv" "out.csv" sample_files)).2
    = (inl s, (process_csv (fresh "missing.csv" "out.csv" sample_files)).2)
    ∧ success s = false
    ∧ summary_errors s = [] ++ more
    ∧ more ≠ [].
Proof.
  apply (failure_is_reported (fresh "missing.csv" "out.csv" sample_files)).
  vm_compute. reflexivity.
Defined.

(** X3. A run touches no file but the output file, and a run that
    returns [False] touches no file at all: the output file is neither
    created nor emptied. *)
Theorem run_frame (w w' : World) (b : bool) :
  process_csv w = (inl b, w') →
  (∀ q, q ≠ output_file (self w) → fs w' !! q = fs w !! q)
  ∧ (b = false → fs w' = fs w).
Proof.
  intros H.
  destruct (process_csv_grows w) as (b0 & w0 & more & k & H0 & _ & _ & Hf & Hq).
  rewrite H in H0. simplify_eq. split; [exact Hq|].
  intros Hb. by destruct (Hf Hb).
Qed.

Lemma run_frame_witness :
  let w := fresh "in.csv" "out.csv" sample_files in
  (∀ q, q ≠ "out.csv" → fs (process_csv w).2 !! q = sample_files !! q)
  ∧ (true = false → fs (process_csv w).2 = sample_files).
Proof.
  intros w. apply (run_frame w (process_csv w).2 true).
  vm_compute. reflexivity.
Defined.

(* ===================================================================== *)
(** * More about the rows *)
(* ===================================================================== *)

Lemma row_result_cases row n :
  match row_result row n with
  | (inl (Some _), e) => e = []
  | (inl None, e) => ∃ msg, e = [row_label n +:+ msg]
  | (inr _, e) => e = []
  end.
Proof.
  unfold row_result.
  destruct (process_row_effect row n (fresh EmptyString EmptyString ∅))
    as ([[r|]|x] & w' & -> & Hw); simpl in *; subst; eauto.
  destruct Hw as [msg ->]. eauto.
Qed.

(** The diagnostics of the loop, as pairs of a row number and a message. *)
Lemma loop_result_shape rows : ∀ n,
  ∃ ms : list (Z * string),
    (loop_result rows n).2 = (λ p, row_label p.1 +:+ p.2) <$> ms
    ∧ (length (loop_result rows n).1 + length ms = length rows)%nat
    ∧ StronglySorted Z.lt ms.*1
    ∧ Forall (λ m, n ≤ m < n + Z.of_nat (length rows)) ms.*1.
Proof.
  induction rows as [|row rows IH]; intros n.
  - exists []. repeat split; constructor.
  - destruct (IH (n + 1)) as (ms & He & Hlen & Hsort & Hrange).
    assert (Forall (λ m, n ≤ m < n + Z.of_nat (length (row :: rows))) ms.*1)
      as Hrange'.
    { eapply Forall_impl; [exact Hrange|]. intros m Hm. simpl in *.
      rewrite Nat2Z.inj_succ. lia. }
    assert (StronglySorted Z.lt (n :: ms.*1)) as Hsort'.
    { constructor; [done|]. eapply Forall_impl; [exact Hrange|].
      intros m Hm. simpl in Hm. lia. }
    pose proof (row_result_cases row n) as Hrow. cbn [loop_result].
    destruct (loop_result rows (n + 1)) as [data errs]. simpl in He, Hlen.
    destruct (row_result row n) as [[[r|]|x] e]; simpl.
    + subst e. exists ms. simpl. repeat split; try done. lia.
    + destruct Hrow as [msg ->]. exists ((n, msg) :: ms).
      simpl. rewrite He. repeat split; try done; [lia|].
      constructor; [simpl; rewrite Nat2Z.inj_succ; lia|done].
    + subst e. exists ((n, str_exn x) :: ms).
      simpl. rewrite He. repeat split; try done; [lia|].
      constructor; [simpl; rewrite Nat2Z.inj_succ; lia|done].
Qed.

(** X4. Every row is accounted for once: the loop either accepts a row
    or leaves exactly one diagnostic for it, so accepted rows and new
    diagnostics add up to the number of rows.  Each new diagnostic opens
    with [Row m: ] for the number [m] of its row, and the diagnostics come
    in the order of the rows. *)
Theorem every_row_accounted (rows : list (gmap (option string) Csv.value)) (n : Z)
    (data : list ProcessedRow) (w : World) :
  ∃ (accepted : list ProcessedRow) (ms : list (Z * string)),
    process_rows _process_row rows n data w
    = (inl (data ++ accepted),
       grow ((λ p, "Row " +:+ str_int p.1 +:+ ": " +:+ p.2) <$> ms)
            (Z.of_nat (length accepted)) w)
    ∧ (length accepted + length ms = length rows)%nat
    ∧ StronglySorted Z.lt ms.*1
    ∧ Forall (λ m, n ≤ m < n + Z.of_nat (length rows)) ms.*1.
Proof.
  destruct (loop_result_shape rows n) as (ms & He & Hlen & Hsort & Hrange).
  exists (loop_result rows n).1, ms. rewrite process_rows_eq, He.
  split; [|done]. do 2 f_equal. apply list_fmap_ext. intros i [m msg] _.
  unfold row_label. simpl. by rewrite !str_app_assoc.
Qed.

(** X5. Only [id], [name] and [value] count: two rows that hold the same
    under these three keys get the same result and the same diagnostic,
    whatever their other columns and surplus cells are. *)
Theorem only_required_fields_matter (row1 row2 : gmap (option string) Csv.value)
    (n : Z) (w : World) :
  same_required row1 row2 →
  _process_row row1 n w = _process_row row2 n w.
Proof.
  intros (Hi & Hn & Hv). row_unfold. by rewrite Hi, Hn, Hv.
Qed.

(** X6. An accepted row is in normal form and costs nothing: its name
    is trimmed and not empty, its value is not less than zero, its id is
    what [int] reads from the [id] cell, and the object is unchanged. *)
Theorem accepted_row_is_normal (row : gmap (option string) Csv.value) (n : Z)
    (w w' : World) (r : ProcessedRow) :
  _process_row row n w = (inl (Some r), w') →
  w' = w
  ∧ strip (name r) = name r
  ∧ name r ≠ EmptyString
  ∧ float_lt (value r) zero = false
  ∧ ∃ i, row !! Some "id" = Some (Csv.VStr i) ∧ int i = Some (id r).
Proof.
  intros H. pose proof (accepted_shape _ _ _ _ _ H) as (Hs & Ht & Hlt).
  apply process_row_accepted in H as (-> & i & nm & vs & Hi & _ & _ & Hz & _).
  repeat split; try done; [by apply truthy_true|eauto].
Qed.


Lemma only_required_fields_matter_witness :
  _process_row wide_row 2 blank_world = _process_row plain_row 2 blank_world.
Proof.
  apply only_required_fields_matter. vm_compute. repeat split.
Defined.

Lemma accepted_row_is_normal_witness :
  blank_world = blank_world
  ∧ strip (name alice) = name alice
  ∧ name alice ≠ EmptyString
  ∧ float_lt (value alice) zero = false
  ∧ ∃ i, plain_row !! Some "id" = Some (Csv.VStr i) ∧ int i = Some (id alice).
Proof.
  apply (accepted_row_is_normal plain_row 2 blank_world blank_world alice).
  vm_compute. reflexivity.
Defined.


(* ===================================================================== *)
(** * Runs that end early *)
(* ===================================================================== *)

(** X8. A source that is there but is no regular file, or that cannot be
    read, ends the run at once: [process_csv] returns [False] and the one
    thing it has done is to append one diagnostic that names the path. *)
Theorem source_errors_end_the_run (w : World) (node : Fs.node) :
  fs w !! input_file (self w) = Some node →
  match node with
  | Fs.File true _ _ => True
  | Fs.File false _ _ =>
      process_csv w
      = (inl false,
         appended ("File processing error: "
                   +:+ "[Errno " +:+ str_int 13 +:+ "] " +:+ "Permission denied"
                   +:+ ": " +:+ repr_str (input_file (self w))) w)
  | _ =>
      process_csv w
      = (inl false,
         appended ("Input path is not a file: " +:+ input_file (self w)) w)
  end.
Proof.
  intros Hn. pose proof (process_csv_eq w) as E. simpl in E. rewrite Hn in E.
  by destruct node as [[] ? ?| |].
Qed.

Lemma source_errors_end_the_run_witness :
  process_csv (fresh "in.csv" "out.csv" locked_files)
  = (inl false,
     appended "File processing error: [Errno 13] Permission denied: 'in.csv'"
       (fresh "in.csv" "out.csv" locked_files)).
Proof.
  pose proof (source_errors_end_the_run (fresh "in.csv" "out.csv" locked_files)
                (Fs.File false true sample)) as H.
  simpl in H. rewrite H; vm_compute; reflexivity.
Defined.





(* ===================================================================== *)
(** * The header *)
(* ===================================================================== *)

Lemma begins_with_fields_cons flds more :
  flds ≠ [] → begins_with_fields (flds :: more.1, more.2).
Proof. by destruct flds. Qed.

(** Once a field of a record has been begun, the record that comes out
    has a field. *)
Lemma first_record_has_fields text : ∀ r,
  in_record r →
  text ≠ EmptyString ∨ Csv.state r = Csv.IN_QUOTED_FIELD →
  (Csv.state r = Csv.EAT_CRNL → ∃ rest, text = String LF rest) →
  begins_with_fields (Csv.records r text).
Proof.
  induction text as [|c rest IH]; intros r Hin Hend Hlf.
  { destruct Hend as [|Hq]; [done|]. simpl. rewrite Hq.
    rewrite bool_decide_eq_true_2, orb_true_r by done.
    unfold begins_with_fields. simpl. by destruct (Csv.fields r). }
  clear Hend. rewrite records_cons.
  set (next := λ r1 : Csv.Reader,
         if Csv.ends_line c rest
         then match Csv.parse_process_char r1 None with
              | inl r2 =>
                  if bool_decide (Csv.state r2 = Csv.START_RECORD)
                  then and_then (Csv.fields r2) (Csv.records Csv.parse_reset rest)
                  else Csv.records r2 rest
              | inr e => ([], Some e)
              end
         else Csv.records r1 rest).
  change (begins_with_fields
            (match Csv.parse_process_char r (Some c) with
             | inl r1 => next r1
             | inr e => ([], Some e)
             end)).
  assert (∀ r1, in_record r1 →
                (Csv.state r1 = Csv.EAT_CRNL → Csv.is_newline c = true) →
                begins_with_fields (next r1)) as Hnext.
  { intros r1 Hin1 Hst. unfold next. destruct (Csv.ends_line c rest) eqn:El.
    - unfold in_record in Hin1. unfold Csv.parse_process_char.
      destruct (Csv.state r1) eqn:Es; try done; simpl;
        try (apply begins_with_fields_cons; by destruct (Csv.fields r1)).
      rewrite bool_decide_eq_false_2 by (by rewrite Es).
      apply IH; [unfold in_record; by rewrite Es|by right|by rewrite Es].
    - apply IH; [done| |].
      + left. intros ->. by destruct c as [[] [] [] [] [] [] [] []].
      + intros E. by eapply line_goes_on; eauto. }
  clearbody next. unfold in_record in Hin. unfold Csv.parse_process_char.
  destruct (Csv.state r) eqn:Es; try done;
    repeat match goal with
           | |- context [if Csv.is_newline c then _ else _] =>
               destruct (Csv.is_newline c) eqn:?
           | |- context [if Ascii.eqb c ?d then _ else _] =>
               destruct (Ascii.eqb c d) eqn:?
           end;
    cbv beta iota;
    try (apply Hnext; unfold in_record; cbn; rewrite ?Es; try done;
         by destruct (Csv.fields r)).
  destruct (Hlf eq_refl) as [rest' Hrest]. simplify_eq.
Qed.

(** A text that opens with a character other than a line break has a
    header with a name in it. *)
Lemma header_found c rest :
  Csv.is_newline c = false →
  ∃ hd names, Csv.fieldnames (Csv.dict_reader (String c rest)) = Some (hd :: names).
Proof.
  intros Hc.
  assert (begins_with_fields (Csv.reader (String c rest))) as Hb.
  { unfold Csv.reader. rewrite records_cons.
    unfold Csv.parse_process_char. cbn [Csv.state Csv.parse_reset]. rewrite Hc.
    assert (∀ r1, in_record r1 → Csv.state r1 ≠ Csv.EAT_CRNL →
              begins_with_fields
                (if Csv.ends_line c rest
                 then match Csv.parse_process_char r1 None with
                      | inl r2 =>
                          if bool_decide (Csv.state r2 = Csv.START_RECORD)
                          then and_then (Csv.fields r2)
                                 (Csv.records Csv.parse_reset rest)
                          else Csv.records r2 rest
                      | inr e => ([], Some e)
                      end
                 else Csv.records r1 rest)) as Hnext.
    { intros r1 Hin Hne. destruct (Csv.ends_line c rest) eqn:El.
      - unfold in_record in Hin. unfold Csv.parse_process_char.
        destruct (Csv.state r1) eqn:Es; try done; simpl;
          try (apply begins_with_fields_cons; by destruct (Csv.fields r1)).
        rewrite bool_decide_eq_false_2 by (by rewrite Es).
        apply first_record_has_fields;
          [unfold in_record; by rewrite Es|by right|by rewrite Es].
      - apply first_record_has_fields; [done| |done].
        left. intros ->. by destruct c as [[] [] [] [] [] [] [] []]. }
    destruct (Ascii.eqb c DQUOTE), (Ascii.eqb c ","); apply Hnext; by cbn. }
  unfold Csv.dict_reader, begins_with_fields in *.
  destruct (Csv.reader (String c rest)) as [[|[|hd names] recs] err];
    simpl in *; try done. eauto.
Qed.

(** A text that is empty or opens with a line break has no header. *)
Lemma header_missing text :
  text = EmptyString
  ∨ (∃ c rest, text = String c rest ∧ Csv.is_newline c = true) →
  Csv.fieldnames (Csv.dict_reader text) = None
  ∨ Csv.fieldnames (Csv.dict_reader text) = Some [].
Proof.
  intros [->|(c & rest & -> & Hc)]; [by left|]. right.
  unfold Csv.dict_reader, Csv.reader. rewrite records_cons.
  assert (Csv.parse_process_char Csv.parse_reset (Some c)
          = inl {| Csv.state := Csv.EAT_CRNL; Csv.field := EmptyString;
                   Csv.fields := [] |}) as ->.
  { unfold Csv.parse_process_char. simpl. by rewrite Hc. }
  destruct (Csv.ends_line c rest) eqn:El.
  - simpl. unfold and_then. by destruct (Csv.records Csv.parse_reset rest).
  - destruct (line_goes_on _ _ Hc El) as [rest' ->].
    rewrite terminator. unfold and_then.
    by destruct (Csv.records Csv.parse_reset rest').
Qed.

(** X11. For a source that can be read, the run ends with [CSV file has
    no headers] (returning [False] with this one diagnostic and nothing
    else done) exactly when the text is empty or opens with a line break;
    any other first line, even one of blanks, counts as a header. *)
Theorem header_is_missing_iff (w : World) (wr : bool) (text : string) :
  fs w !! input_file (self w) = Some (Fs.File true wr text) →
  process_csv w = (inl false, appended "CSV file has no headers" w)
  ↔ (text = EmptyString
     ∨ ∃ c rest, text = String c rest ∧ Csv.is_newline c = true).
Proof.
  intros Hsrc. pose proof (process_csv_eq w) as E. simpl in E.
  rewrite Hsrc in E. split.
  - intros H. destruct text as [|c rest]; [by left|]. right.
    exists c, rest. split; [done|].
    destruct (Csv.is_newline c) eqn:Hc; [done|]. exfalso.
    destruct (header_found c rest Hc) as (hd & names & Hn).
    rewrite Hn, H in E.
    destruct (loop_result _ 2) as [[|r data] errs].
    + apply (f_equal (λ p, last (errors (self p.2)))) in E. simpl in E.
      by rewrite !last_snoc in E.
    + destruct (Fs.open_write _ _); [done|].
      apply (f_equal (λ p, last (errors (self p.2)))) in E. simpl in E.
      rewrite !last_snoc in E. by rewrite str_app_cons in E.
  - intros H. by destruct (header_missing text H) as [Hn|Hn]; rewrite Hn in E.
Qed.

Lemma header_is_missing_iff_witness :
  process_csv (fresh "in.csv" "out.csv" empty_files)
  = (inl false, appended "CSV file has no headers" (fresh "in.csv" "out.csv" empty_files)).
Proof.
  apply (header_is_missing_iff (fresh "in.csv" "out.csv" empty_files) true EmptyString).
  - vm_compute. reflexivity.
  - by left.
Defined.

(* ===================================================================== *)
(** * The output file *)
(* ===================================================================== *)

(** What a run that returns [True] has done. *)
Lemma successful_run w w' source :
  process_csv w = (inl true, w') →
  Fs.content (fs w) (input_file (self w)) = Some source →
  ∃ hd names data errs,
    Csv.fieldnames (Csv.dict_reader source) = Some (hd :: names)
    ∧ loop_result (Csv.rows (Csv.dict_reader source)) 2 = (data, errs)
    ∧ data ≠ []
    ∧ w' = with_fs (written (fs w) (output_file (self w))
                      (output_text (hd :: names) data))
             (grow errs (Z.of_nat (length data)) w)
    ∧ wrong_fields (hd :: names) = []
    ∧ Forall (λ r, strip (name r) = name r ∧ truthy (name r) = true
                   ∧ float_lt (value r) zero = false) data.
Proof.
  intros Hrun Hsrc.
  pose proof (process_csv_eq w) as E. simpl in E. rewrite Hrun in E.
  unfold Fs.content in Hsrc.
  destruct (fs w !! input_file (self w)) as [[[] wr text| |]|];
    simplify_eq; try done.
  destruct (Csv.fieldnames (Csv.dict_reader source)) as [[|hd names]|] eqn:En;
    simplify_eq; try done.
  destruct (loop_result (Csv.rows (Csv.dict_reader source)) 2)
    as [data errs] eqn:El.
  exists hd, names, data, errs.
  assert (data ≠ []) as Hsome by (intros ->; done).
  split; [done|]. split; [done|]. split; [done|]. split.
  { destruct data; [done|].
    by destruct (Fs.open_write (fs w) (output_file (self w))); simplify_eq. }
  split.
  { unfold Csv.dict_reader in En, El.
    destruct (Csv.reader source) as [[|hd' recs] err]; simpl in *; [done|].
    simplify_eq. eapply (accepted_keys _ _ 2). by rewrite El. }
  apply Forall_forall. intros r Hr.
  assert (r ∈ (loop_result (Csv.rows (Csv.dict_reader source)) 2).1) as Hin
    by by rewrite El.
  apply loop_accepted in Hin as (row & m & w0 & w3 & Hrow).
  by apply accepted_shape in Hrow.
Qed.

Lemma cell_other r k : k ∉ keys → cell r k = EmptyString.
Proof.
  unfold keys, cell. intros Hk.
  rewrite !bool_decide_eq_false_2; [done|..]; intros ->; apply Hk; set_solver.
Qed.

(** X12. The output file of a run that returns [True] holds the header
    of the source, name for name, and after it one record for every row
    counted in [processed_rows].  Every record has one cell for each
    column, and the cells of the columns other than [id], [name] and
    [value] are empty: what the source held there is not carried over. *)
Theorem output_layout (w w' : World) (source : string) :
  process_csv w = (inl true, w') →
  Fs.content (fs w) (input_file (self w)) = Some source →
  ∃ text names recs,
    Fs.content (fs w') (output_file (self w)) = Some text
    ∧ Csv.reader text = (names :: recs, None)
    ∧ Csv.fieldnames (Csv.dict_reader source) = Some names
    ∧ Z.of_nat (length recs) = processed_rows (self w') - processed_rows (self w)
    ∧ Forall (λ rec : list string,
                length rec = length names
                ∧ ∀ i k, names !! i = Some k → k ∉ keys →
                         rec !! i = Some EmptyString) recs.
Proof.
  intros Hrun Hsrc.
  destruct (successful_run _ _ _ Hrun Hsrc)
    as (hd & names & data & errs & Hn & _ & _ & -> & _ & _).
  exists (output_text (hd :: names) data), (hd :: names),
    ((λ r, cell r <$> hd :: names) <$> data).
  split; [apply content_written|]. split; [apply output_text_read|].
  split; [done|]. split; [rewrite length_fmap; simpl; lia|].
  apply Forall_fmap, Forall_forall. intros r _. cbv beta.
  unfold compose.
  split; [by rewrite length_fmap|]. intros i k Hi Hk.
  by rewrite list_lookup_fmap, Hi, <- (cell_other r k Hk).
Qed.

Lemma output_layout_witness :
  let w := fresh "in.csv" "out.csv" sample_files in
  ∃ text names recs,
    Fs.content (fs (process_csv w).2) "out.csv" = Some text
    ∧ Csv.reader text = (names :: recs, None)
    ∧ Csv.fieldnames (Csv.dict_reader sample) = Some names
    ∧ Z.of_nat (length recs) = processed_rows (self (process_csv w).2) - 0
    ∧ Forall (λ rec : list string,
                length rec = length names
                ∧ ∀ i k, names !! i = Some k → k ∉ keys →
                         rec !! i = Some EmptyString) recs.
Proof.
  intros w. apply (output_layout w (process_csv w).2 sample);
    vm_compute; reflexivity.
Defined.

(** X13. The output of a run is a fixed point of the processor: run on
    its own output file, a fresh object returns [True], leaves no
    diagnostic, counts as many rows as the first run had accepted and
    writes the same text again.  The floats are taken to read back from
    their [repr], and the output file of the first run to be readable. *)
Theorem own_output_is_a_fixed_point (w w' w1 : World) (source text out2 : string)
    (data : list ProcessedRow) :
  process_csv w = (inl true, w') →
  Fs.content (fs w) (input_file (self w)) = Some source →
  process_rows _process_row (Csv.rows (Csv.dict_reader source)) 2 [] w
  = (inl data, w1) →
  Forall (λ r, float_of_str (repr_float (value r)) = Some (value r)) data →
  Fs.open_read (fs w') (output_file (self w)) = inl text →
  can_write (fs w') out2 = true →
  ∃ w2,
    process_csv (fresh (output_file (self w)) out2 (fs w')) = (inl true, w2)
    ∧ errors (self w2) = []
    ∧ processed_rows (self w2) = Z.of_nat (length data)
    ∧ Fs.content (fs w2) out2 = Some text.
Proof.
  intros Hrun Hsrc Hloop Hfloat Hread Hwrite.
  destruct (successful_run _ _ _ Hrun Hsrc)
    as (hd & names & data0 & errs & Hn & El & Hsome & -> & Hkeys & Hshape).
  rewrite process_rows_eq, El in Hloop. simpl in Hloop. simplify_eq.
  simpl in Hread, Hwrite.
  assert (∃ wr, written (fs w) (output_file (self w))
                  (output_text (hd :: names) data) !! output_file (self w)
                = Some (Fs.File true wr text)
                ∧ text = output_text (hd :: names) data) as (wr & Hout & ->).
  { unfold Fs.open_read in Hread. pose proof (content_written (fs w)
      (output_file (self w)) (output_text (hd :: names) data)) as Hc.
    unfold Fs.content in Hc.
    destruct (written _ _ _ !! output_file (self w)) as [[[] wr t| |]|];
      simplify_eq. eauto. }
  assert (Forall (λ r, strip (name r) = name r ∧ truthy (name r) = true
                       ∧ float_lt (value r) zero = false
                       ∧ float_of_str (repr_float (value r)) = Some (value r))
            data) as Hall.
  { rewrite Forall_forall in Hshape, Hfloat. apply Forall_forall.
    intros r Hr. destruct (Hshape r Hr) as (? & ? & ?). auto. }
  set (files := written (fs w) (output_file (self w))
                  (output_text (hd :: names) data)) in *.
  set (w0 := fresh (output_file (self w)) out2 files).
  pose proof (process_csv_eq w0) as E. simpl in E. rewrite Hout in E.
  assert (Csv.dict_reader (output_text (hd :: names) data)
          = {| Csv.fieldnames := Some (hd :: names);
               Csv.rows := Csv.to_dict (hd :: names)
                           <$> ((λ r, cell r <$> hd :: names) <$> data);
               Csv.failure := None |}) as Hdr.
  { unfold Csv.dict_reader. rewrite output_text_read.
    by rewrite filter_cells. }
  rewrite Hdr in E. cbn [Csv.fieldnames Csv.rows] in E.
  set (rows2 := Csv.to_dict (hd :: names)
                <$> ((λ r, cell r <$> hd :: names) <$> data)) in *.
  pose proof (process_rows_eq rows2 2 [] w0) as Hagain.
  unfold rows2 in Hagain at 1.
  rewrite (reread_rows _ _ _ _ _ Hkeys Hall) in Hagain.
  destruct (loop_result rows2 2) as [data1 errs1]. cbn [fst snd] in Hagain.
  pose proof (f_equal (λ p, errors (self p.2)) Hagain) as Hw.
  apply (f_equal fst) in Hagain. simpl in Hagain, Hw. simplify_eq.
  unfold can_write in Hwrite.
  destruct data1 as [|r0 data']; [done|].
  destruct (Fs.open_write files out2) as [f|] eqn:Eo; [|done].
  eexists. split; [exact E|]. simpl.
  split; [done|]. split; [lia|apply content_written].
Qed.

Lemma own_output_is_a_fixed_point_witness :
  let w := fresh "in.csv" "out.csv" sample_files in
  ∃ w2,
    process_csv (fresh "out.csv" "again.csv" (fs (process_csv w).2)) = (inl true, w2)
    ∧ errors (self w2) = []
    ∧ processed_rows (self w2) = 1
    ∧ Fs.content (fs w2) "again.csv" = Some (txt "id,name,value^|1,Alice,10.5^|").
Proof.
  intros w.
  apply (own_output_is_a_fixed_point w (process_csv w).2
           (process_rows _process_row (Csv.rows (Csv.dict_reader sample)) 2 [] w).2
           sample (txt "id,name,value^|1,Alice,10.5^|") "again.csv" [alice]).
  - vm_compute. reflexivity.
  - vm_compute. reflexivity.
  - vm_compute. reflexivity.
  - constructor; [vm_compute; reflexivity | constructor].
  - vm_compute. reflexivity.
  - vm_compute. reflexivity.
Defined.

(* ===================================================================== *)
(** * [main] *)
(* ===================================================================== *)

Section MainFacts.

Variable path_text : string → string.
Variables done_mark folder_mark failed_mark : string.

Lemma main_usage_any argv files :
  length argv ≠ 3%nat → main path_text done_mark folder_mark failed_mark argv files = ([usage], SystemExit 1, files).
Proof. by destruct argv as [|a [|b [|c [|d argv]]]]. Qed.

Lemma main_failure_any prog input output files w :
  process_csv (fresh (path_text input) (path_text output) files) = (inl false, w) →
  main path_text done_mark folder_mark failed_mark [prog; input; output] files
  = (["Processing " +:+ input +:+ "...";
      failed_mark +:+ " Processing failed with errors:"]
     ++ ((λ error, "   - " +:+ error) <$> errors (self w)),
     SystemExit 1, files)
  ∧ errors (self w) ≠ [].
Proof.
  intros H.
  destruct (process_csv_grows (fresh (path_text input) (path_text output) files))
    as (b & w0 & more & k & H0 & Hs & _ & Hf & _).
  rewrite H in H0. simplify_eq. destruct (Hf eq_refl) as [Hmore Hfs].
  unfold main. rewrite H. simpl. rewrite Hfs. split; [done|].
  rewrite Hs. simpl. by destruct more.
Qed.

Lemma main_success_any prog input output files w :
  process_csv (fresh (path_text input) (path_text output) files) = (inl true, w) →
  main path_text done_mark folder_mark failed_mark [prog; input; output] files
  = (["Processing " +:+ input +:+ "...";
      done_mark +:+ " Successfully processed "
      +:+ str_int (processed_rows (self w)) +:+ " rows";
      folder_mark +:+ " Output written to: " +:+ path_text output],
     Returned, fs w)
  ∧ 0 < processed_rows (self w)
  ∧ ∀ q, q ≠ path_text output → fs w !! q = files !! q.
Proof.
  intros H.
  pose proof (process_csv_eq (fresh (path_text input) (path_text output) files))
    as E. simpl in E. rewrite H in E.
  destruct (process_csv_grows (fresh (path_text input) (path_text output) files))
    as (b & w0 & more & k & H0 & Hs & _ & _ & Hq).
  rewrite H in H0. simplify_eq.
  unfold main. rewrite H. simpl. rewrite Hs. simpl.
  split; [done|]. split; [|exact Hq].
  destruct (files !! path_text input) as [[[] wr text| |]|]; simplify_eq.
  destruct (Csv.fieldnames (Csv.dict_reader text)) as [[|hd names]|]; simplify_eq.
  destruct (loop_result _ 2) as [[|r data] errs]; simplify_eq.
  destruct (Fs.open_write _ _); simplify_eq. simpl. lia.
Qed.

End MainFacts.

(** X14. Called with a number of arguments other than two, [main]
    prints the usage line and nothing else, leaves through [sys.exit(1)]
    and touches no file: no processor is made. *)
Theorem main_usage (path_text : string → string) (done_mark folder_mark failed_mark : string)
    (argv : list string) (files : gmap string Fs.node) :
  length argv ≠ 3%nat →
  main path_text done_mark folder_mark failed_mark argv files
  = (["Usage: python csv_processor.py input.csv output.csv"], SystemExit 1, files).
Proof. apply main_usage_any. Qed.

Lemma main_usage_witness :
  main (λ p, p) "ok" "dir" "no" ["csv_processor.py"; "in.csv"] sample_files
  = (["Usage: python csv_processor.py input.csv output.csv"], SystemExit 1,
     sample_files).
Proof. apply main_usage. simpl. lia. Defined.

(** X15. When the run fails, [main] prints the line that names the
    input as it was given, the line that announces the failure, and then
    every diagnostic of the run, in order, each after three blanks and a
    dash; there is at least one.  It leaves through [sys.exit(1)] and the
    files are as they were. *)
Theorem main_failure (path_text : string → string) (done_mark folder_mark failed_mark : string)
    (prog input output : string) (files : gmap string Fs.node) (w : World) :
  process_csv (fresh (path_text input) (path_text output) files) = (inl false, w) →
  main path_text done_mark folder_mark failed_mark [prog; input; output] files
  = (["Processing " +:+ input +:+ "...";
      failed_mark +:+ " Processing failed with errors:"]
     ++ ((λ error, "   - " +:+ error) <$> errors (self w)),
     SystemExit 1, files)
  ∧ errors (self w) ≠ [].
Proof. apply main_failure_any. Qed.

Lemma main_failure_witness :
  main (λ p, p) "ok" "dir" "no" ["csv_processor.py"; "in.csv"; "out.csv"] header_only_files
  = (["Processing in.csv..."; "no Processing failed with errors:";
      "   - No valid rows to process"],
     SystemExit 1, header_only_files).
Proof.
  destruct (main_failure (λ p, p) "ok" "dir" "no" "csv_processor.py" "in.csv" "out.csv"
              header_only_files
              (process_csv (fresh "in.csv" "out.csv" header_only_files)).2)
    as [-> _]; vm_compute; reflexivity.
Defined.

(** X16. When the run succeeds, [main] prints three lines and returns:
    the input as it was given, the number of rows counted, which is at
    least one, and the text of the output path.  None of the diagnostics
    is printed, whatever the rejected rows have left, and no file but the
    output file has changed. *)
Theorem main_success (path_text : string → string) (done_mark folder_mark failed_mark : string)
    (prog input output : string) (files : gmap string Fs.node) (w : World) :
  process_csv (fresh (path_text input) (path_text output) files) = (inl true, w) →
  main path_text done_mark folder_mark failed_mark [prog; input; output] files
  = (["Processing " +:+ input +:+ "...";
      done_mark +:+ " Successfully processed "
      +:+ str_int (processed_rows (self w)) +:+ " rows";
      folder_mark +:+ " Output written to: " +:+ path_text output],
     Returned, fs w)
  ∧ 0 < processed_rows (self w)
  ∧ ∀ q, q ≠ path_text output → fs w !! q = files !! q.
Proof. apply main_success_any. Qed.

Lemma main_success_witness :
  (main (λ p, p) "ok" "dir" "no" ["csv_processor.py"; "in.csv"; "out.csv"] sample_files).1
  = (["Processing in.csv..."; "ok Successfully processed 1 rows";
      "dir Output written to: out.csv"], Returned)
  ∧ length (errors (self (process_csv (fresh "in.csv" "out.csv" sample_files)).2))
    = 3%nat.
Proof.
  destruct (main_success (λ p, p) "ok" "dir" "no" "csv_processor.py" "in.csv" "out.csv"
              sample_files (process_csv (fresh "in.csv" "out.csv" sample_files)).2)
    as [-> _]; vm_compute; try reflexivity. by split.
Defined.
